(** * huxiu-rss: the feed generator of [scripts/generate-rss.mjs]

    A shallow embedding of the script and the proofs of its specified
    properties.

    Conventions of the embedding.
    - A JavaScript string is a [string] holding its UTF-8 bytes.  Every
      character the script tests for or inserts is ASCII, except the
      Unicode white space recognised by [\s] and by [Number], which is
      matched as its UTF-8 byte sequence.
    - A finite JavaScript number is an exact rational ([Q]); the rounding
      of IEEE doubles is not modelled.  [NaN] and the infinities are
      separate constructors of [number].
    - The data recovered from the page is plain data ([JsVal]): no
      functions, accessors or prototype overrides.
    - Code that can throw returns a [Result]; effects (the network, the
      random source, the log, the timer) are explicit in a [World]. *)

From Stdlib Require Import ZArith QArith Qround Qminmax Qabs Qpower Lqa Lia.
From Stdlib Require Import Ascii String.
From stdpp Require Import base option numbers gmap strings list fin_maps pretty.

Set Warnings "-register-all".
#[local] Open Scope string_scope.

(** ** Errors and results *)

(** The failures the script can raise, one constructor per [throw] site
    (or per kind of runtime exception). *)
Inductive Error :=
| HttpError (status : Z) (statusText : string)   (* fetchHtml: !res.ok *)
| TransportError (reason : string)               (* fetch rejected *)
| PatternNotFound                                (* extractNuxtExpression *)
| SandboxError (reason : string)                 (* vm.runInContext threw *)
| NoNuxtResult                                   (* evalNuxtExpression *)
| ListNotFound                                   (* generateRss *)
| TypeError (reason : string)                    (* a runtime TypeError *)
| UndefinedThrown.                               (* [throw undefined] *)

(** The message text of the errors the script constructs itself. *)
Definition message (e : Error) : string :=
  match e with
  | HttpError status statusText =>
      "拉取失败: " +:+ pretty status +:+ " " +:+ statusText
  | TransportError reason => reason
  | PatternNotFound => "未找到 window.__NUXT__ 赋值的内联脚本片段"
  | SandboxError reason => reason
  | NoNuxtResult => "执行后未得到 window.__NUXT__"
  | ListNotFound => "未找到 data[0].hotArticlesList，页面结构可能变更"
  | TypeError reason => reason
  | UndefinedThrown => "undefined"
  end.

Inductive Result (A : Type) :=
| Ok (a : A)
| Throw (e : Error).
Arguments Ok {A} a.
Arguments Throw {A} e.

#[global] Instance Result_ret : MRet Result := fun A a => Ok a.
#[global] Instance Result_bind : MBind Result := fun A B f m =>
  match m with
  | Ok a => f a
  | Throw e => Throw e
  end.
#[global] Instance Result_fmap : FMap Result := fun A B f m =>
  match m with
  | Ok a => Ok (f a)
  | Throw e => Throw e
  end.

(** [xs.map(f)] for an [f] that can throw: the first exception aborts. *)
Fixpoint mapResult {A B : Type} (f : A -> Result B) (xs : list A) : Result (list B) :=
  match xs with
  | [] => Ok []
  | x :: xs' => y ← f x; ys ← mapResult f xs'; Ok (y :: ys)
  end.

(** ** JavaScript values *)

Inductive number :=
| Finite (q : Q)
| NaN
| PosInf
| NegInf.

Inductive JsVal :=
| JUndefined
| JNull
| JBool (b : bool)
| JNum (n : number)
| JStr (s : string)
| JArr (elems : list JsVal)
| JObj (props : gmap string JsVal).

(** [v ?? d] *)
Definition nullish (v d : JsVal) : JsVal :=
  match v with
  | JUndefined | JNull => d
  | _ => v
  end.
Infix "??" := nullish (at level 45, left associativity).

(** [v?.k] for a property name [k] that no built-in prototype defines
    (all the names the script reads are of that kind): the own property
    of an object, [undefined] on anything else. *)
Definition optChain (v : JsVal) (k : string) : JsVal :=
  match v with
  | JObj props => default JUndefined (props !! k)
  | _ => JUndefined
  end.
Infix "?." := optChain (at level 40, left associativity).

Definition isArray (v : JsVal) : bool :=
  match v with
  | JArr _ => true
  | _ => false
  end.

(** [ToBoolean] *)
Definition truthy (v : JsVal) : bool :=
  match v with
  | JUndefined | JNull => false
  | JBool b => b
  | JNum (Finite q) => negb (Qeq_bool q 0%Q)
  | JNum NaN => false
  | JNum _ => true
  | JStr s => negb (String.eqb s "")
  | JArr _ | JObj _ => true
  end.

(** Truthiness of a string value: non-empty. *)
Definition nonEmpty (s : string) : bool := negb (String.eqb s "").

(** The runtime services the script relies on and that are not part of
    the repository: the text of a number that is not a safe integer, and
    the script engine behind [vm.runInContext]. *)
Inductive VmOutcome :=
| VmThrows (reason : string)          (* the run raised or timed out *)
| VmDone (nuxt : JsVal).              (* sandbox.window.__NUXT__ afterwards *)

Class Host := {
  hostNumberToString : Q -> string;
  runInContext : string -> VmOutcome;
}.

Definition isInteger (q : Q) : bool := Qeq_bool q (inject_Z (Qfloor q)).

Section Conversions.
Context `{Host}.

(** [Number::toString]: a safe integer prints as its decimal digits. *)
Definition NumberToString (n : number) : string :=
  match n with
  | NaN => "NaN"
  | PosInf => "Infinity"
  | NegInf => "-Infinity"
  | Finite q =>
      if isInteger q && (Z.abs (Qfloor q) <=? 2 ^ 53)%Z
      then pretty (Qfloor q)
      else hostNumberToString q
  end.

(** [String(v)].  An array prints its elements joined by commas, with
    [null] and [undefined] as the empty text.  A plain object prints as
    [[object Object]] through [Object.prototype.toString]; an own,
    non-callable [toString] property hides that method and the
    conversion raises a TypeError. *)
Fixpoint ToString (v : JsVal) : Result string :=
  match v with
  | JUndefined => Ok "undefined"
  | JNull => Ok "null"
  | JBool true => Ok "true"
  | JBool false => Ok "false"
  | JNum n => Ok (NumberToString n)
  | JStr s => Ok s
  | JArr elems =>
      String.concat "," <$>
        (fix elemsToString (l : list JsVal) : Result (list string) :=
           match l with
           | [] => Ok []
           | e :: l' =>
               s ← match e with
                   | JUndefined | JNull => Ok ""
                   | _ => ToString e
                   end;
               ss ← elemsToString l';
               Ok (s :: ss)
           end) elems
  | JObj props =>
      match props !! "toString" with
      | Some _ => Throw (TypeError "Cannot convert object to primitive value")
      | None => Ok "[object Object]"
      end
  end.
End Conversions.

(** ** escapeXml *)

(** [s.replaceAll(c, rep)] for a one-character pattern [c] and a
    replacement without [$]. *)
Fixpoint replaceAll (c : ascii) (rep : string) (s : string) : string :=
  match s with
  | EmptyString => EmptyString
  | String a s' =>
      if Ascii.eqb a c then rep +:+ replaceAll c rep s'
      else String a (replaceAll c rep s')
  end.

(** The double quote, as a character and as a one-character string. *)
Definition DQUOTE : ascii := "034"%char.
Definition dq : string := String DQUOTE EmptyString.

(** The chain of five replacements, on a string. *)
Definition escapeText (s : string) : string :=
  replaceAll "'" "&apos;"
    (replaceAll DQUOTE "&quot;"
      (replaceAll ">" "&gt;"
        (replaceAll "<" "&lt;"
          (replaceAll "&" "&amp;" s)))).

(** ** buildRssFromHotArticles *)

Definition HOME_URL : string := "https://m.huxiu.com/".

(** The line feed, as a one-character string. *)
Definition nl : string := String "010"%char EmptyString.

(** [opts]: each field is [None] when absent. *)
Record Opts := {
  title : option string;
  link : option string;
  description : option string;
}.

Definition noOpts : Opts := {| title := None; link := None; description := None |}.

(** The constants the mapping callback computes for one record, under
    the names they have in the source. *)
Record Item := {
  itemTitle : string;
  itemLink : string;
  guid : string;
  author : string;
  enclosure : string;
  descText : string;
  authorTag : string;
}.

(** The value of the [isPermaLink] attribute. *)
Definition isPermaLink (it : Item) : string :=
  if nonEmpty (itemLink it) then "true" else "false".

(** The array of lines the callback returns, joined by line feeds. *)
Definition itemXml (it : Item) : string :=
  String.concat nl
    [ "    <item>";
      "      <title>" +:+ itemTitle it +:+ "</title>";
      "      <link>" +:+ itemLink it +:+ "</link>";
      "      <guid isPermaLink=" +:+ dq +:+ isPermaLink it +:+ dq +:+ ">"
        +:+ guid it +:+ "</guid>";
      "      " +:+ authorTag it;
      "      <description><![CDATA[" +:+ descText it +:+ "]]></description>"
        +:+ enclosure it;
      "    </item>" ].

Section Feed.
Context `{Host}.

(** [escapeXml(s)] = [String(s ?? "")] followed by the replacements. *)
Definition escapeXml (s : JsVal) : Result string :=
  str ← ToString (s ?? JStr ""); Ok (escapeText str).

Definition enclosureOf (picPath : JsVal) : Result string :=
  if truthy picPath then
    url ← escapeXml picPath;
    Ok (nl +:+ "      <enclosure url=" +:+ dq +:+ url +:+ dq
           +:+ " type=" +:+ dq +:+ "image/jpeg" +:+ dq +:+ " />")
  else Ok "".

Definition descPartsOf (isOriginal isVideo : JsVal) (author : string) : list string :=
  (if truthy isOriginal then ["原创"] else [])
  ++ (if truthy isVideo then ["视频"] else [])
  ++ (if nonEmpty author then ["作者：" +:+ author] else []).

(** The body of the callback of [hotArticlesList.map], up to the
    returned text. *)
Definition itemOf (a : JsVal) : Result Item :=
  itemTitle ← escapeXml (a ?. "title" ?? JStr "");
  itemLink ← escapeXml (a ?. "url" ?? JStr "");
  guidRaw ← (if nonEmpty itemLink then Ok itemLink
             else ToString (a ?. "aid" ?? JStr ""));
  guid ← escapeXml (JStr guidRaw);
  let userInfo := a ?. "user_info" in
  author ← escapeXml (userInfo ?. "username" ?? JStr "");
  let picPath := a ?. "pic_path" in
  enclosure ← enclosureOf picPath;
  let isOriginal := a ?. "is_original" in
  let isVideo := a ?. "is_video_article" in
  let descParts := descPartsOf isOriginal isVideo author in
  let descText := String.concat " | " descParts in
  let authorTag :=
    if nonEmpty author then "<author>" +:+ author +:+ "</author>"
    else "<author />" in
  Ok {| itemTitle := itemTitle; itemLink := itemLink; guid := guid;
        author := author; enclosure := enclosure; descText := descText;
        authorTag := authorTag |}.

Definition hotArticleItem (a : JsVal) : Result string := itemXml <$> itemOf a.

(** [now] is the text of [new Date().toUTCString()]. *)
Definition buildRssFromHotArticles
    (now : string) (hotArticlesList : list JsVal) (opts : Opts) : Result string :=
  let title := default "虎嗅 - 热门文章" (title opts) in
  let link := default HOME_URL (link opts) in
  let description := default "来自 m.huxiu.com 首页的 hotArticlesList" (description opts) in
  items ← String.concat nl <$> mapResult hotArticleItem hotArticlesList;
  title' ← escapeXml (JStr title);
  link' ← escapeXml (JStr link);
  description' ← escapeXml (JStr description);
  Ok (String.concat nl
        [ "<?xml version=" +:+ dq +:+ "1.0" +:+ dq +:+ " encoding=" +:+ dq
            +:+ "UTF-8" +:+ dq +:+ "?>";
          "<rss version=" +:+ dq +:+ "2.0" +:+ dq +:+ ">";
          "  <channel>";
          "    <title>" +:+ title' +:+ "</title>";
          "    <link>" +:+ link' +:+ "</link>";
          "    <description>" +:+ description' +:+ "</description>";
          "    <lastBuildDate>" +:+ now +:+ "</lastBuildDate>";
          items;
          "  </channel>";
          "</rss>";
          "" ]).
End Feed.

(** ** Text scanning helpers *)

(** [stripPrefix p s] is the rest of [s] after its prefix [p]. *)
Fixpoint stripPrefix (p s : string) : option string :=
  match p, s with
  | EmptyString, _ => Some s
  | String a p', String b s' => if Ascii.eqb a b then stripPrefix p' s' else None
  | String _ _, EmptyString => None
  end.

Fixpoint bytes (codes : list N) : string :=
  match codes with
  | [] => EmptyString
  | c :: cs => String (ascii_of_N c) (bytes cs)
  end.

(** The characters of [WhiteSpace] and [LineTerminator], which are those
    of the class [\s] and those [Number] trims: TAB, LF, VT, FF, CR, SP,
    U+00A0, U+1680, U+2000 to U+200A, U+2028, U+2029, U+202F, U+205F,
    U+3000 and U+FEFF, in UTF-8. *)
Definition whiteSpace : list string :=
  map bytes
    [ [9]; [10]; [11]; [12]; [13]; [32];
      [194; 160];
      [225; 154; 128];
      [226; 128; 128]; [226; 128; 129]; [226; 128; 130]; [226; 128; 131];
      [226; 128; 132]; [226; 128; 133]; [226; 128; 134]; [226; 128; 135];
      [226; 128; 136]; [226; 128; 137]; [226; 128; 138];
      [226; 128; 168]; [226; 128; 169]; [226; 128; 175];
      [226; 129; 159];
      [227; 128; 128];
      [239; 187; 191] ]%N.

(** The rest of [s] after the first member of [ps] that starts it. *)
Fixpoint stripAny (ps : list string) (s : string) : option string :=
  match ps with
  | [] => None
  | p :: ps' =>
      match stripPrefix p s with
      | Some r => Some r
      | None => stripAny ps' s
      end
  end.

(** One white-space character off the head of [s]. *)
Definition stripWs (s : string) : option string := stripAny whiteSpace s.

Fixpoint trimStartFuel (fuel : nat) (s : string) : string :=
  match fuel with
  | O => s
  | S fuel' =>
      match stripWs s with
      | Some r => trimStartFuel fuel' r
      | None => s
      end
  end.

Definition trimStart (s : string) : string := trimStartFuel (String.length s) s.

(** [s] consists of white space only. *)
Definition allWs (s : string) : bool := String.eqb (trimStart s) "".

Fixpoint trimEnd (s : string) : string :=
  match s with
  | EmptyString => EmptyString
  | String a s' => if allWs s then EmptyString else String a (trimEnd s')
  end.

(** ** Number(raw) and envNumber *)

(** The value of a digit character in a base up to 16. *)
Definition digitValue (base : Z) (c : ascii) : option Z :=
  let n := Z.of_N (N_of_ascii c) in
  let v :=
    (if (48 <=? n) && (n <=? 57) then n - 48
     else if (97 <=? n) && (n <=? 102) then n - 87
     else if (65 <=? n) && (n <=? 70) then n - 55
     else 99)%Z in
  if (v <? base)%Z then Some v else None.

(** The longest prefix of digits of [s]: their count, their value read
    after the digits already accumulated in [acc], and the rest. *)
Fixpoint takeDigits (base : Z) (acc : Z) (count : nat) (s : string) : Z * nat * string :=
  match s with
  | EmptyString => (acc, count, s)
  | String c s' =>
      match digitValue base c with
      | Some d => takeDigits base (acc * base + d)%Z (S count) s'
      | None => (acc, count, s)
      end
  end.

(** [ExponentPart], which must end the text; [None] if malformed. *)
Definition exponentPart (s : string) : option Z :=
  match s with
  | EmptyString => Some 0%Z
  | String c s' =>
      if Ascii.eqb c "e" || Ascii.eqb c "E" then
        let '(sign, digits) :=
          match s' with
          | String "+" d => (1%Z, d)
          | String "-" d => ((-1)%Z, d)
          | _ => (1%Z, s')
          end in
        match takeDigits 10 0 0 digits with
        | (e, S _, EmptyString) => Some (sign * e)%Z
        | _ => None
        end
      else None
  end.

(** [StrUnsignedDecimalLiteral] other than [Infinity]: its exact value. *)
Definition unsignedDecimal (s : string) : option Q :=
  let '(ip, ni, r1) := takeDigits 10 0 0 s in
  let '(m, nf, r2, dot) :=
    match r1 with
    | String "." r =>
        let '(m, nf, r2) := takeDigits 10 ip 0 r in (m, nf, r2, true)
    | _ => (ip, O, r1, false)
    end in
  match ni, nf with
  | O, O => None
  | _, _ =>
      match exponentPart r2 with
      | Some e => Some (inject_Z m * Qpower 10 (e - Z.of_nat nf))%Q
      | None => None
      end
  end.

(** [NonDecimalIntegerLiteral]: [0x], [0o] or [0b] and at least one digit. *)
Definition nonDecimalInteger (s : string) : option Q :=
  match s with
  | String "0" (String p digits) =>
      let base :=
        (if Ascii.eqb p "x" || Ascii.eqb p "X" then 16
         else if Ascii.eqb p "o" || Ascii.eqb p "O" then 8
         else if Ascii.eqb p "b" || Ascii.eqb p "B" then 2
         else 0)%Z in
      match takeDigits base 0 0 digits with
      | (v, S _, EmptyString) => Some (inject_Z v)
      | _ => None
      end
  | _ => None
  end.

(** A mathematical value whose magnitude reaches [2^1024 - 2^970]
    rounds to an infinity. *)
Definition roundsToInfinity (q : Q) : bool :=
  Qle_bool (inject_Z (2 ^ 1024 - 2 ^ 970)%Z) (Qabs q).

Definition finiteOrInfinity (q : Q) : number :=
  if roundsToInfinity q then (if Qle_bool 0%Q q then PosInf else NegInf)
  else Finite q.

(** [Number(raw)] for a string: [StringToNumber]. *)
Definition Number (raw : string) : number :=
  let s := trimEnd (trimStart raw) in
  if String.eqb s "" then Finite 0%Q
  else
    match nonDecimalInteger s with
    | Some q => finiteOrInfinity q
    | None =>
        let '(negative, u) :=
          match s with
          | String "+" u => (false, u)
          | String "-" u => (true, u)
          | _ => (false, s)
          end in
        if String.eqb u "Infinity" then (if negative then NegInf else PosInf)
        else
          match unsignedDecimal u with
          | Some q => finiteOrInfinity (if negative then (- q)%Q else q)
          | None => NaN
          end
    end.

(** [Number.isFinite(n) ? n : fallback] *)
Definition finiteOr (n : number) (fallback : Q) : Q :=
  match n with
  | Finite q => q
  | _ => fallback
  end.

(** [envNumber(name, fallback)], reading the environment [env]. *)
Definition envNumber (env : gmap string string) (name : string) (fallback : Q) : Q :=
  match env !! name with
  | None => fallback
  | Some raw =>
      if String.eqb raw "" then fallback
      else finiteOr (Number raw) fallback
  end.

Definition FETCH_RETRY_MAX (env : gmap string string) : Q :=
  envNumber env "FETCH_RETRY_MAX" 3%Q.
Definition FETCH_RETRY_BASE_DELAY_MS (env : gmap string string) : Q :=
  envNumber env "FETCH_RETRY_BASE_DELAY_MS" 500%Q.
Definition FETCH_RETRY_MAX_DELAY_MS (env : gmap string string) : Q :=
  envNumber env "FETCH_RETRY_MAX_DELAY_MS" 8000%Q.

(** ** Backoff and retry *)

(** The three module constants, read from the environment at start-up. *)
Record Config := {
  retryMax : Q;
  retryBaseDelayMs : Q;
  retryMaxDelayMs : Q;
}.

Definition configOf (env : gmap string string) : Config :=
  {| retryMax := FETCH_RETRY_MAX env;
     retryBaseDelayMs := FETCH_RETRY_BASE_DELAY_MS env;
     retryMaxDelayMs := FETCH_RETRY_MAX_DELAY_MS env |}.

Definition clamp (n lo hi : Q) : Q := Qmin (Qmax n lo) hi.

(** [backoffDelayMs(attempt)]; [random] is the value [Math.random()]
    returns, a number of [[0, 1)]. *)
Definition backoffDelayMs (cfg : Config) (random : Q) (attempt : Z) : Q :=
  let exp := (retryBaseDelayMs cfg * Qpower 2 (attempt - 1))%Q in
  let jitter := (exp * ((1 # 2) + random))%Q in
  clamp (inject_Z (Qfloor jitter)) 0%Q (retryMaxDelayMs cfg).

(** One line of [console.warn]: the values interpolated into it. *)
Record Warning := {
  warnLabel : string;
  warnAttempt : Z;
  warnAttempts : Q;
  warnDelay : Q;
  warnError : Error;
}.

(** The observable effects of a run so far. *)
Record World := {
  invocations : nat;          (* calls of the wrapped operation *)
  draws : nat;                (* calls of Math.random *)
  warnings : list Warning;    (* console.warn lines, latest first *)
  sleeps : list Q;            (* delays slept, latest first *)
}.

Definition initialWorld : World :=
  {| invocations := 0; draws := 0; warnings := []; sleeps := [] |}.

Section Retry.
Context {A : Type}.
(** The configuration and the random source: the [n]-th call of
    [Math.random] returns [random n]. *)
Variable cfg : Config.
Variable random : nat -> Q.
(** The wrapped operation: its [n]-th invocation (from 0) completes as
    [fn n]. *)
Variable fn : nat -> Result A.

Definition invoke (w : World) : Result A * World :=
  (fn (invocations w),
   {| invocations := S (invocations w); draws := draws w;
      warnings := warnings w; sleeps := sleeps w |}).

Definition drawDelay (attempt : Z) (w : World) : Q * World :=
  (backoffDelayMs cfg (random (draws w)) attempt,
   {| invocations := invocations w; draws := S (draws w);
      warnings := warnings w; sleeps := sleeps w |}).

Definition warnAndSleep (wn : Warning) (w : World) : World :=
  {| invocations := invocations w; draws := draws w;
     warnings := wn :: warnings w; sleeps := warnDelay wn :: sleeps w |}.

(** The [for] loop of [withRetry] and the [throw] after it.  [None]
    only when [fuel] iterations did not reach the end of the loop. *)
Fixpoint retryLoop (fuel : nat) (opLabel : string) (attempts : Q)
    (attempt : Z) (lastError : Error) (w : World) : option (Result A * World) :=
  match fuel with
  | O => None
  | S fuel' =>
      if Qle_bool (inject_Z attempt) attempts then
        match invoke w with
        | (Ok v, w1) => Some (Ok v, w1)
        | (Throw err, w1) =>
            if Qle_bool attempts (inject_Z attempt) then Some (Throw err, w1)
            else
              let '(delay, w2) := drawDelay attempt w1 in
              let wn := {| warnLabel := opLabel; warnAttempt := attempt;
                           warnAttempts := attempts; warnDelay := delay;
                           warnError := err |} in
              retryLoop fuel' opLabel attempts (attempt + 1) err (warnAndSleep wn w2)
        end
      else Some (Throw lastError, w)
  end.

(** [Math.max(1, maxAttempts ?? 1)] *)
Definition effectiveAttempts (maxAttempts : option Q) : Q :=
  Qmax 1 (default 1%Q maxAttempts).

(** [withRetry(fn, { maxAttempts, label })].  [maxAttempts] is a finite
    number or missing: the one caller passes [FETCH_RETRY_MAX], which
    [envNumber] keeps finite.  [lastError] starts as [undefined].  The
    loop body runs at most [floor attempts] times, so the fuel given
    here lets the loop end (lemma [retryLoop_total]). *)
Definition withRetry (maxAttempts : option Q) (label : option string)
    (w : World) : option (Result A * World) :=
  let attempts := effectiveAttempts maxAttempts in
  let opLabel := default "operation" label in
  retryLoop (S (Z.to_nat (Qfloor attempts))) opLabel attempts 1 UndefinedThrown w.
End Retry.

(** ** fetchHtml *)

(** What one call of [fetch] and [res.text()] yields. *)
Inductive FetchOutcome :=
| FetchRejected (reason : string)
| FetchResponse (status : Z) (statusText : string) (body : string)
| FetchBodyFailed (status : Z) (statusText : string) (reason : string).

(** [res.ok] *)
Definition statusOk (status : Z) : bool := (200 <=? status)%Z && (status <=? 299)%Z.

Definition fetchHtml (o : FetchOutcome) : Result string :=
  match o with
  | FetchRejected reason => Throw (TransportError reason)
  | FetchResponse status statusText body =>
      if statusOk status then Ok body else Throw (HttpError status statusText)
  | FetchBodyFailed status statusText reason =>
      if statusOk status then Throw (TransportError reason)
      else Throw (HttpError status statusText)
  end.

(** [fetchHtmlWithRetry(url)]: the [n]-th request completes as
    [network n]. *)
Definition fetchHtmlWithRetry (cfg : Config) (random : nat -> Q)
    (network : nat -> FetchOutcome) (url : string) (w : World)
    : option (Result string * World) :=
  withRetry cfg random (fun n => fetchHtml (network n))
    (Some (retryMax cfg)) (Some ("fetch " +:+ url)) w.

(** ** extractNuxtExpression *)

(** The pieces the regular expression is made of. *)
Inductive Atom :=
| Lit (text : string)   (* literal characters *)
| Spaces                (* [\s*], greedy *)
| Lazy                  (* [[\s\S]*?], lazy *)
| Opt (text : string).  (* [(?:text)?], greedy *)

(** [\s*] with backtracking: the longest run first. *)
Fixpoint spacesThen {R : Type} (fuel : nat) (s : string)
    (k : string -> option R) : option R :=
  match fuel with
  | O => k s
  | S fuel' =>
      match stripWs s with
      | Some r =>
          match spacesThen fuel' r k with
          | Some x => Some x
          | None => k s
          end
      | None => k s
      end
  end.

(** [[\s\S]*?] with backtracking: the shortest run first. *)
Fixpoint lazyThen {R : Type} (s : string) (k : string -> option R) : option R :=
  match k s with
  | Some x => Some x
  | None =>
      match s with
      | EmptyString => None
      | String _ r => lazyThen r k
      end
  end.

(** Match the atoms in sequence at the head of [s], then continue with
    [k] on the rest; the first success in backtracking order. *)
Fixpoint matchSeq {R : Type} (atoms : list Atom) (s : string)
    (k : string -> option R) : option R :=
  match atoms with
  | [] => k s
  | Lit text :: atoms' =>
      match stripPrefix text s with
      | Some r => matchSeq atoms' r k
      | None => None
      end
  | Spaces :: atoms' =>
      spacesThen (String.length s) s (fun r => matchSeq atoms' r k)
  | Lazy :: atoms' =>
      lazyThen s (fun r => matchSeq atoms' r k)
  | Opt text :: atoms' =>
      match stripPrefix text s with
      | Some r =>
          match matchSeq atoms' r k with
          | Some x => Some x
          | None => matchSeq atoms' s k
          end
      | None => matchSeq atoms' s k
      end
  end.

(** [/window\.__NUXT__\s*=\s*(...)\s*;?/] in three parts: before, inside
    and after the capturing group. *)
Definition reBefore : list Atom :=
  [Lit "window.__NUXT__"; Spaces; Lit "="; Spaces].
Definition reGroup : list Atom :=
  [Lit "("; Spaces; Lit "function"; Spaces; Lit "("; Lazy; Lit ")"; Spaces;
   Lit "{"; Lazy; Lit "}"; Spaces; Lit "("; Lazy; Lit ")"; Spaces; Lit ")"].
Definition reAfter : list Atom := [Spaces; Opt ";"].

(** The first [n] characters of [s]. *)
Fixpoint takeChars (n : nat) (s : string) : string :=
  match n, s with
  | S n', String a s' => String a (takeChars n' s')
  | _, _ => EmptyString
  end.

(** The text between a position [s1] and a later position [s2], both
    given as the rest of the subject from there. *)
Definition between (s1 s2 : string) : string :=
  takeChars (String.length s1 - String.length s2) s1.

(** A match that starts at the head of [s]: the text of group 1. *)
Definition matchHere (s : string) : option string :=
  matchSeq reBefore s (fun s1 =>
    matchSeq reGroup s1 (fun s2 =>
      matchSeq reAfter s2 (fun _ => Some (between s1 s2)))).

(** [re.exec(html)]: the match at the leftmost position that has one. *)
Fixpoint exec (html : string) : option string :=
  match matchHere html with
  | Some g => Some g
  | None =>
      match html with
      | EmptyString => None
      | String _ html' => exec html'
      end
  end.

Definition extractNuxtExpression (html : string) : Result string :=
  match exec html with
  | None => Throw PatternNotFound
  | Some g => Ok g
  end.

(** ** evalNuxtExpression and generateRss *)

Section Pipeline.
Context `{Host}.

(** The source text handed to [vm.runInContext]. *)
Definition nuxtScript (iifeExpr : string) : string :=
  "window.__NUXT__ = " +:+ iifeExpr +:+ ";".

Definition evalNuxtExpression (iifeExpr : string) : Result JsVal :=
  match runInContext (nuxtScript iifeExpr) with
  | VmThrows reason => Throw (SandboxError reason)
  | VmDone nuxt => if truthy nuxt then Ok nuxt else Throw NoNuxtResult
  end.

(** [xs[0]] *)
Definition firstElement (xs : list JsVal) : JsVal := default JUndefined (head xs).

(** The navigation of [generateRss] from [nuxtData] to the list. *)
Definition locateHotArticles (nuxtData : JsVal) : Result (list JsVal) :=
  let data := nuxtData ?. "data" in
  let first :=
    match data with
    | JArr elems => firstElement elems
    | _ => JUndefined
    end in
  let hotArticlesList := first ?. "hotArticlesList" in
  match hotArticlesList with
  | JArr records => Ok records
  | _ => Throw ListNotFound
  end.

Definition feedOpts : Opts :=
  {| title := Some "虎嗅 - 热门文章(hotArticlesList)";
     link := Some HOME_URL;
     description := Some "从虎嗅移动端首页 __NUXT__ 中提取的热门文章列表" |}.

(** [generateRss] after the page has been fetched. *)
Definition rssOfHtml (now : string) (html : string) : Result string :=
  iifeExpr ← extractNuxtExpression html;
  nuxtData ← evalNuxtExpression iifeExpr;
  hotArticlesList ← locateHotArticles nuxtData;
  buildRssFromHotArticles now hotArticlesList feedOpts.

Definition generateRss (cfg : Config) (random : nat -> Q)
    (network : nat -> FetchOutcome) (now : string) (w : World)
    : option (Result string * World) :=
  match fetchHtmlWithRetry cfg random network HOME_URL w with
  | None => None
  | Some (fetched, w') => Some (fetched ≫= rssOfHtml now, w')
  end.
End Pipeline.

(** ** A reference host

    A small script engine for the data-literal fragment that the page's
    payload is written in: [window.__NUXT__ = E;] where [E] is a literal
    or [(function(p, ...){return L}(A, ...))], with [L] and the [A]s built
    from numbers, unescaped string literals, array and object literals,
    [true], [false], [null], [undefined], [NaN], [Infinity] and parameter
    names.  It instantiates [Host] for the examples; scripts outside the
    fragment are rejected. *)

Inductive Token :=
| TPunct (c : ascii)
| TIdent (name : string)
| TNum (q : Q)
| TStr (text : string).

Definition isPunct (c : ascii) : bool :=
  existsb (Ascii.eqb c) ["("; ")"; "{"; "}"; "["; "]"; ","; ":"; ";"; "="; "."]%char.

Definition isIdentStart (c : ascii) : bool :=
  let n := N_of_ascii c in
  ((65 <=? n) && (n <=? 90) || (97 <=? n) && (n <=? 122) || (n =? 95) || (n =? 36))%N.

Definition isDigit (c : ascii) : bool :=
  let n := N_of_ascii c in ((48 <=? n) && (n <=? 57))%N.

(** The longest prefix of [s] whose characters satisfy [p], and the rest. *)
Fixpoint spanChars (p : ascii -> bool) (s : string) : string * string :=
  match s with
  | EmptyString => (EmptyString, EmptyString)
  | String c s' =>
      if p c then let '(a, b) := spanChars p s' in (String c a, b)
      else (EmptyString, s)
  end.

(** The text of a string literal up to the closing [quote]; a literal
    with a backslash or a line break is not in the fragment. *)
Fixpoint stringBody (quote : ascii) (s : string) : option (string * string) :=
  match s with
  | EmptyString => None
  | String c s' =>
      if Ascii.eqb c quote then Some (EmptyString, s')
      else if Ascii.eqb c "092" || Ascii.eqb c "010" || Ascii.eqb c "013" then None
      else
        match stringBody quote s' with
        | Some (body, rest) => Some (String c body, rest)
        | None => None
        end
  end.

Fixpoint tokenize (fuel : nat) (s : string) : option (list Token) :=
  match fuel with
  | O => None
  | S fuel' =>
      match stripWs s with
      | Some r => tokenize fuel' r
      | None =>
          match s with
          | EmptyString => Some []
          | String c s' =>
              if isPunct c then cons (TPunct c) <$> tokenize fuel' s'
              else if isIdentStart c then
                let '(name, rest) := spanChars (fun x => isIdentStart x || isDigit x) s in
                cons (TIdent name) <$> tokenize fuel' rest
              else if isDigit c then
                let '(i, _, r1) := takeDigits 10 0 0 s in
                match r1 with
                | String "." r2 =>
                    let '(m, nf, r3) := takeDigits 10 i 0 r2 in
                    cons (TNum (inject_Z m * Qpower 10 (- Z.of_nat nf))%Q)
                      <$> tokenize fuel' r3
                | _ => cons (TNum (inject_Z i)) <$> tokenize fuel' r1
                end
              else if Ascii.eqb c DQUOTE || Ascii.eqb c "'" then
                match stringBody c s' with
                | Some (body, rest) => cons (TStr body) <$> tokenize fuel' rest
                | None => None
                end
              else None
          end
      end
  end.

Inductive Expr :=
| ENum (q : Q)
| EStr (text : string)
| EIdent (name : string)
| EArr (elems : list Expr)
| EObj (props : list (string * Expr)).

(** A recursive-descent parser of one expression. *)
Fixpoint parseExpr (fuel : nat) (ts : list Token) : option (Expr * list Token) :=
  match fuel with
  | O => None
  | S fuel' =>
      let parseElems :=
        fix parseElems (n : nat) (ts : list Token) : option (list Expr * list Token) :=
          match n with
          | O => None
          | S n' =>
              match parseExpr fuel' ts with
              | Some (e, TPunct "," :: ts') =>
                  match parseElems n' ts' with
                  | Some (es, rest) => Some (e :: es, rest)
                  | None => None
                  end
              | Some (e, TPunct "]" :: ts') => Some ([e], ts')
              | _ => None
              end
          end in
      let parseProps :=
        fix parseProps (n : nat) (ts : list Token) : option (list (string * Expr) * list Token) :=
          match n with
          | O => None
          | S n' =>
              let key :=
                match ts with
                | TIdent k :: TPunct ":" :: ts' => Some (k, ts')
                | TStr k :: TPunct ":" :: ts' => Some (k, ts')
                | _ => None
                end in
              match key with
              | Some (k, ts') =>
                  if String.eqb k "__proto__" then None
                  else
                    match parseExpr fuel' ts' with
                    | Some (e, TPunct "," :: ts2) =>
                        match parseProps n' ts2 with
                        | Some (ps, rest) => Some ((k, e) :: ps, rest)
                        | None => None
                        end
                    | Some (e, TPunct "}" :: ts2) => Some ([(k, e)], ts2)
                    | _ => None
                    end
              | None => None
              end
          end in
      match ts with
      | TNum q :: ts' => Some (ENum q, ts')
      | TStr t :: ts' => Some (EStr t, ts')
      | TIdent x :: ts' => Some (EIdent x, ts')
      | TPunct "[" :: TPunct "]" :: ts' => Some (EArr [], ts')
      | TPunct "[" :: ts' =>
          match parseElems fuel' ts' with
          | Some (es, rest) => Some (EArr es, rest)
          | None => None
          end
      | TPunct "{" :: TPunct "}" :: ts' => Some (EObj [], ts')
      | TPunct "{" :: ts' =>
          match parseProps fuel' ts' with
          | Some (ps, rest) => Some (EObj ps, rest)
          | None => None
          end
      | _ => None
      end
  end.

(** The value of an expression; [None] for an unbound name. *)
Fixpoint evalExpr (scope : list (string * JsVal)) (e : Expr) : option JsVal :=
  match e with
  | ENum q => Some (JNum (Finite q))
  | EStr t => Some (JStr t)
  | EIdent x =>
      match find (fun b => String.eqb (fst b) x) scope with
      | Some b => Some (snd b)
      | None =>
          if String.eqb x "true" then Some (JBool true)
          else if String.eqb x "false" then Some (JBool false)
          else if String.eqb x "null" then Some JNull
          else if String.eqb x "undefined" then Some JUndefined
          else if String.eqb x "NaN" then Some (JNum NaN)
          else if String.eqb x "Infinity" then Some (JNum PosInf)
          else None
      end
  | EArr elems =>
      JArr <$>
        (fix evalElems (es : list Expr) : option (list JsVal) :=
           match es with
           | [] => Some []
           | e' :: es' =>
               match evalExpr scope e', evalElems es' with
               | Some v, Some vs => Some (v :: vs)
               | _, _ => None
               end
           end) elems
  | EObj props =>
      JObj <$>
        (fix evalProps (ps : list (string * Expr)) (acc : gmap string JsVal)
             : option (gmap string JsVal) :=
           match ps with
           | [] => Some acc
           | (k, e') :: ps' =>
               match evalExpr scope e' with
               | Some v => evalProps ps' (<[k := v]> acc)
               | None => None
               end
           end) props ∅
  end.

(** Parameter names, up to the closing parenthesis. *)
Fixpoint parseParams (ts : list Token) : option (list string * list Token) :=
  match ts with
  | TPunct ")" :: ts' => Some ([], ts')
  | TIdent x :: TPunct ")" :: ts' => Some ([x], ts')
  | TIdent x :: TPunct "," :: ts' =>
      match parseParams ts' with
      | Some (xs, rest) => Some (x :: xs, rest)
      | None => None
      end
  | _ => None
  end.

(** Argument expressions, up to the closing parenthesis. *)
Fixpoint parseArgs (fuel : nat) (ts : list Token) : option (list Expr * list Token) :=
  match fuel with
  | O => None
  | S fuel' =>
      match ts with
      | TPunct ")" :: ts' => Some ([], ts')
      | _ =>
          match parseExpr fuel ts with
          | Some (e, TPunct ")" :: ts') => Some ([e], ts')
          | Some (e, TPunct "," :: ts') =>
              match parseArgs fuel' ts' with
              | Some (es, rest) => Some (e :: es, rest)
              | None => None
              end
          | _ => None
          end
      end
  end.

(** Bind parameters to argument values; a missing argument is
    [undefined], and of two parameters of one name the later wins. *)
Fixpoint bindParams (params : list string) (args : list JsVal) : list (string * JsVal) :=
  match params with
  | [] => []
  | x :: params' => bindParams params' (tail args) ++ [(x, default JUndefined (head args))]
  end.

Definition dropSemicolon (ts : list Token) : list Token :=
  match ts with
  | TPunct ";" :: ts' => ts'
  | _ => ts
  end.

(** The right-hand side of the assignment. *)
Definition evalRhs (fuel : nat) (ts : list Token) : option JsVal :=
  match ts with
  | TPunct "(" :: TIdent "function" :: TPunct "(" :: ts1 =>
      '(params, ts2) ← parseParams ts1;
      match ts2 with
      | TPunct "{" :: TIdent "return" :: ts3 =>
          '(body, ts4) ← parseExpr fuel ts3;
          match dropSemicolon ts4 with
          | TPunct "}" :: TPunct "(" :: ts5 =>
              '(args, ts6) ← parseArgs fuel ts5;
              match ts6 with
              | TPunct ")" :: ts7 =>
                  match dropSemicolon ts7 with
                  | [] =>
                      argVals ← mapM (evalExpr []) args;
                      evalExpr (bindParams params argVals) body
                  | _ => None
                  end
              | _ => None
              end
          | _ => None
          end
      | _ => None
      end
  | _ =>
      '(e, rest) ← parseExpr fuel ts;
      match dropSemicolon rest with
      | [] => evalExpr [] e
      | _ => None
      end
  end.

Definition referenceEngine (script : string) : VmOutcome :=
  match tokenize (S (String.length script)) script with
  | Some (TIdent "window" :: TPunct "." :: TIdent "__NUXT__" :: TPunct "=" :: ts) =>
      match evalRhs (S (length ts)) ts with
      | Some v => VmDone v
      | None => VmThrows "rejected by the reference engine"
      end
  | _ => VmThrows "rejected by the reference engine"
  end.

(** The digits of the fraction [num / den] after the decimal point. *)
Fixpoint fractionDigits (fuel : nat) (num den : Z) : string :=
  match fuel with
  | O => EmptyString
  | S fuel' =>
      if (num =? 0)%Z then EmptyString
      else pretty (num * 10 / den)%Z +:+ fractionDigits fuel' ((num * 10) mod den)%Z den
  end.

(** The decimal text of a number, to at most twenty fraction digits. *)
Definition decimalText (q : Q) : string :=
  let a := Qabs q in
  let i := Qfloor a in
  let num := (Qnum a - i * Z.pos (Qden a))%Z in
  (if Qle_bool 0 q then "" else "-") +:+ pretty i
    +:+ (if (num =? 0)%Z then "" else "." +:+ fractionDigits 20 num (Z.pos (Qden a))).

Definition referenceHost : Host :=
  {| hostNumberToString := decimalText; runInContext := referenceEngine |}.

(** ** main *)

(** [s.slice(n)] for [n] within the text. *)
Fixpoint sliceFrom (n : nat) (s : string) : string :=
  match n, s with
  | S n', String _ s' => sliceFrom n' s'
  | _, _ => s
  end.

(** [v.startsWith(p)] *)
Definition startsWith (p v : string) : bool := bool_decide (is_Some (stripPrefix p v)).

(** [outPathArg || "rss.xml"], with [outPathArg] the text after [--out=]
    of the first argument that starts so. *)
Definition outPathOf (argv : list string) : string :=
  let outPathArg :=
    sliceFrom (String.length "--out=") <$> find (startsWith "--out=") argv in
  match outPathArg with
  | Some p => if nonEmpty p then p else "rss.xml"
  | None => "rss.xml"
  end.

(** What ends a run early: an exception of the pipeline, or a rejection
    by the file system. *)
Inductive Failure :=
| Raised (e : Error)
| FsRejected (reason : string).

(** What a run of the script leaves behind. *)
Record Run := {
  effects : World;                    (* of the fetch with retries *)
  madeDirs : list string;             (* directories made, latest first *)
  written : list (string * string);   (* files written: path and content *)
  stdout : list string;               (* console.log lines *)
  stderr : list Failure;              (* console.error reports *)
  exitCode : option Z;                (* process.exitCode, if set *)
}.

Section Main.
Context `{Host}.
(** The path functions of [node:path] and the location of the script. *)
Variable dirname : string -> string.
Variable resolve : string -> string -> string.
Variable scriptFile : string.
(** The file system: [mkdirFails dir] and [writeFails path content] give
    the reason when the call is rejected. *)
Variable mkdirFails : string -> option string.
Variable writeFails : string -> string -> option string.

(** The handler of [main().catch]. *)
Definition failedRun (w : World) (dirs : list string) (f : Failure) : Run :=
  {| effects := w; madeDirs := dirs; written := []; stdout := [];
     stderr := [f]; exitCode := Some 1%Z |}.

(** [absOut] *)
Definition absOutOf (argv : list string) : string :=
  let repoRoot := resolve (dirname scriptFile) ".." in
  resolve repoRoot (outPathOf argv).

Definition main (env : gmap string string) (argv : list string)
    (random : nat -> Q) (network : nat -> FetchOutcome) (now : string) : option Run :=
  let outPath := outPathOf argv in
  let absOut := absOutOf argv in
  match generateRss (configOf env) random network now initialWorld with
  | None => None
  | Some (Throw e, w) => Some (failedRun w [] (Raised e))
  | Some (Ok rss, w) =>
      match mkdirFails (dirname absOut) with
      | Some reason => Some (failedRun w [] (FsRejected reason))
      | None =>
          match writeFails absOut rss with
          | Some reason => Some (failedRun w [dirname absOut] (FsRejected reason))
          | None =>
              Some {| effects := w; madeDirs := [dirname absOut];
                      written := [(absOut, rss)];
                      stdout := ["Wrote " +:+ outPath +:+ " ("
                                   +:+ pretty (String.length rss) +:+ " bytes)"];
                      stderr := []; exitCode := None |}
          end
      end
  end.
End Main.

(** * Properties *)

#[local] Arguments append _ _ : simpl nomatch.

(** ** XML escaping *)

(** The five entity references, without their ampersand. *)
Definition entityNames : list string := ["amp;"; "lt;"; "gt;"; "quot;"; "apos;"].

(** [s] holds none of [<], [>], the double quote and the apostrophe,
    and each [&] in it starts one of the five entity references. *)
Fixpoint xmlSafe (s : string) : bool :=
  match s with
  | EmptyString => true
  | String c r =>
      if Ascii.eqb c "<" || Ascii.eqb c ">" || Ascii.eqb c DQUOTE || Ascii.eqb c "'"
      then false
      else if Ascii.eqb c "&"
      then existsb (fun e => bool_decide (is_Some (stripPrefix e r))) entityNames
           && xmlSafe r
      else xmlSafe r
  end.

(** What the five replacements make of one character. *)
Definition escapeChar (c : ascii) : string :=
  if Ascii.eqb c "&" then "&amp;"
  else if Ascii.eqb c "<" then "&lt;"
  else if Ascii.eqb c ">" then "&gt;"
  else if Ascii.eqb c DQUOTE then "&quot;"
  else if Ascii.eqb c "'" then "&apos;"
  else String c EmptyString.

Lemma append_assoc (a b c : string) : (a +:+ b) +:+ c = a +:+ (b +:+ c).
Proof. induction a as [|x a IH]; simpl; [reflexivity | now rewrite IH]. Qed.

Lemma append_empty_r (a : string) : a +:+ "" = a.
Proof. induction a as [|x a IH]; simpl; [reflexivity | now rewrite IH]. Qed.

Lemma append_length (a b : string) :
  String.length (a +:+ b) = (String.length a + String.length b)%nat.
Proof. induction a as [|x a IH]; simpl; [reflexivity | now rewrite IH]. Qed.

Lemma replaceAll_app c rep a b :
  replaceAll c rep (a +:+ b) = replaceAll c rep a +:+ replaceAll c rep b.
Proof.
  induction a as [|x a IH]; simpl; [reflexivity|].
  rewrite IH. destruct (Ascii.eqb x c); simpl; [|reflexivity].
  now rewrite append_assoc.
Qed.

Lemma escapeText_app a b : escapeText (a +:+ b) = escapeText a +:+ escapeText b.
Proof. unfold escapeText. now rewrite !replaceAll_app. Qed.

Lemma escapeText_char c : escapeText (String c EmptyString) = escapeChar c.
Proof.
  unfold escapeText, escapeChar. cbn [replaceAll].
  destruct (Ascii.eqb c "&") eqn:Ea.
  { reflexivity. }
  cbn [replaceAll]. destruct (Ascii.eqb c "<") eqn:El.
  { reflexivity. }
  cbn [replaceAll]. destruct (Ascii.eqb c ">") eqn:Eg.
  { reflexivity. }
  cbn [replaceAll]. destruct (Ascii.eqb c DQUOTE) eqn:Eq.
  { reflexivity. }
  cbn [replaceAll]. now destruct (Ascii.eqb c "'").
Qed.

(** The chain of replacements is a single pass over the characters. *)
Lemma escapeText_cons c s : escapeText (String c s) = escapeChar c +:+ escapeText s.
Proof.
  change (String c s) with (String c EmptyString +:+ s).
  now rewrite escapeText_app, escapeText_char.
Qed.

Lemma xmlSafe_escapeChar c t : xmlSafe (escapeChar c +:+ t) = xmlSafe t.
Proof.
  unfold escapeChar.
  destruct (Ascii.eqb c "&") eqn:Ea; [reflexivity|].
  destruct (Ascii.eqb c "<") eqn:El; [reflexivity|].
  destruct (Ascii.eqb c ">") eqn:Eg; [reflexivity|].
  destruct (Ascii.eqb c DQUOTE) eqn:Eq; [reflexivity|].
  destruct (Ascii.eqb c "'") eqn:Ep; [reflexivity|].
  simpl. now rewrite Ea, El, Eg, Eq, Ep.
Qed.

Lemma xmlSafe_escapeText s : xmlSafe (escapeText s) = true.
Proof.
  induction s as [|c s IH]; [reflexivity|].
  now rewrite escapeText_cons, xmlSafe_escapeChar.
Qed.

Lemma escapeText_empty s : escapeText s = "" <-> s = "".
Proof.
  split; [|now intros ->].
  destruct s as [|c s]; [reflexivity|].
  rewrite escapeText_cons. unfold escapeChar.
  repeat match goal with |- context [if ?b then _ else _] => destruct b end;
    discriminate.
Qed.

(** The entity reference whose name starts [r], if any: the character
    it stands for and the length of the name. *)
Definition entityAt (r : string) : option (ascii * nat) :=
  if bool_decide (is_Some (stripPrefix "amp;" r)) then Some ("&"%char, 4%nat)
  else if bool_decide (is_Some (stripPrefix "lt;" r)) then Some ("<"%char, 3%nat)
  else if bool_decide (is_Some (stripPrefix "gt;" r)) then Some (">"%char, 3%nat)
  else if bool_decide (is_Some (stripPrefix "quot;" r)) then Some (DQUOTE, 5%nat)
  else if bool_decide (is_Some (stripPrefix "apos;" r)) then Some ("'"%char, 5%nat)
  else None.

(** What an XML parser reads back from character data: each entity
    reference becomes its character.  [skip] counts the characters of a
    reference that are still to be passed over. *)
Fixpoint unescapeFrom (skip : nat) (s : string) : string :=
  match s with
  | EmptyString => EmptyString
  | String c r =>
      match skip with
      | S skip' => unescapeFrom skip' r
      | O =>
          if Ascii.eqb c "&" then
            match entityAt r with
            | Some (ch, len) => String ch (unescapeFrom len r)
            | None => String c (unescapeFrom 0 r)
            end
          else String c (unescapeFrom 0 r)
      end
  end.

Definition unescapeText (s : string) : string := unescapeFrom 0 s.

Lemma unescapeText_escapeChar c t :
  unescapeText (escapeChar c +:+ t) = String c (unescapeText t).
Proof.
  unfold unescapeText, escapeChar.
  destruct (Ascii.eqb c "&") eqn:Ea; [apply Ascii.eqb_eq in Ea as ->; reflexivity|].
  destruct (Ascii.eqb c "<") eqn:El; [apply Ascii.eqb_eq in El as ->; reflexivity|].
  destruct (Ascii.eqb c ">") eqn:Eg; [apply Ascii.eqb_eq in Eg as ->; reflexivity|].
  destruct (Ascii.eqb c DQUOTE) eqn:Eq; [apply Ascii.eqb_eq in Eq as ->; reflexivity|].
  destruct (Ascii.eqb c "'") eqn:Ep; [apply Ascii.eqb_eq in Ep as ->; reflexivity|].
  simpl. now rewrite Ea.
Qed.

(** Escaping loses nothing: reading the escaped text back gives the
    original. *)
Lemma unescapeText_escapeText s : unescapeText (escapeText s) = s.
Proof.
  induction s as [|c s IH]; [reflexivity|].
  now rewrite escapeText_cons, unescapeText_escapeChar, IH.
Qed.

Lemma escapeText_inj a b : escapeText a = escapeText b -> a = b.
Proof.
  intros Heq. rewrite <- (unescapeText_escapeText a), <- (unescapeText_escapeText b).
  now rewrite Heq.
Qed.

(** ** The error monad *)

Lemma bind_Ok {A B : Type} (m : Result A) (f : A -> Result B) (b : B) :
  m ≫= f = Ok b -> exists a, m = Ok a /\ f a = Ok b.
Proof. destruct m as [a|e]; [now exists a | discriminate]. Qed.

Lemma fmap_Ok {A B : Type} (m : Result A) (f : A -> B) (b : B) :
  f <$> m = Ok b -> exists a, m = Ok a /\ b = f a.
Proof.
  destruct m as [a|e]; [|discriminate]. intros [= <-]. now exists a.
Qed.

(** Take a hypothesis [x ← m; k = Ok b] apart. *)
Ltac bind_inv H :=
  let a := fresh "a" in
  let Ha := fresh "H" a in
  apply bind_Ok in H; destruct H as (a & Ha & H).

Lemma mapResult_Forall2 {A B : Type} (f : A -> Result B) xs ys :
  mapResult f xs = Ok ys -> Forall2 (fun x y => f x = Ok y) xs ys.
Proof.
  revert ys. induction xs as [|x xs IH]; intros ys Hm; simpl in Hm.
  - injection Hm as <-. constructor.
  - bind_inv Hm. bind_inv Hm. injection Hm as <-. constructor; auto.
Qed.

Lemma mapResult_length {A B : Type} (f : A -> Result B) xs ys :
  mapResult f xs = Ok ys -> length ys = length xs.
Proof.
  intros Hm. apply mapResult_Forall2 in Hm.
  symmetry. eapply Forall2_length, Hm.
Qed.

(** ** Conversions that cannot raise *)

(** Values whose conversion to text cannot raise: no object in them
    hides [Object.prototype.toString] behind a property of its own. *)
Fixpoint printable (v : JsVal) : bool :=
  match v with
  | JArr elems => forallb printable elems
  | JObj props => bool_decide (props !! "toString" = None)
  | _ => true
  end.

(** The fields of a record that the feed converts to text. *)
Definition recordPrintable (a : JsVal) : bool :=
  printable (a ?. "title") && printable (a ?. "url") && printable (a ?. "aid")
  && printable (a ?. "user_info" ?. "username") && printable (a ?. "pic_path").

(** Induction on values, with the elements of an array as premises. *)
Lemma JsVal_nested_ind (P : JsVal -> Prop) :
  P JUndefined -> P JNull -> (forall b, P (JBool b)) -> (forall n, P (JNum n)) ->
  (forall s, P (JStr s)) ->
  (forall elems, Forall P elems -> P (JArr elems)) ->
  (forall props, P (JObj props)) ->
  forall v, P v.
Proof.
  intros Hu Hn Hb Hnum Hs Ha Ho.
  fix IH 1. intros [| |b|n|s|elems|props].
  - exact Hu.
  - exact Hn.
  - apply Hb.
  - apply Hnum.
  - apply Hs.
  - apply Ha. induction elems as [|e elems IHe]; constructor; [apply IH | exact IHe].
  - apply Ho.
Qed.

(** ** The feed document *)

(** The layout of the document, given the channel texts, the build date
    and the items as they are to appear. *)
Definition rssDocument (title link description now : string) (items : list string) : string :=
  "<?xml version=" +:+ dq +:+ "1.0" +:+ dq +:+ " encoding=" +:+ dq +:+ "UTF-8" +:+ dq +:+ "?>" +:+ nl
  +:+ "<rss version=" +:+ dq +:+ "2.0" +:+ dq +:+ ">" +:+ nl
  +:+ "  <channel>" +:+ nl
  +:+ "    <title>" +:+ title +:+ "</title>" +:+ nl
  +:+ "    <link>" +:+ link +:+ "</link>" +:+ nl
  +:+ "    <description>" +:+ description +:+ "</description>" +:+ nl
  +:+ "    <lastBuildDate>" +:+ now +:+ "</lastBuildDate>" +:+ nl
  +:+ String.concat nl items +:+ nl
  +:+ "  </channel>" +:+ nl
  +:+ "</rss>" +:+ nl.

(** The layout of one item: the texts between the tags. *)
Definition itemLayout (title link permalink guid authorTag descText enclosure : string) : string :=
  "    <item>" +:+ nl
  +:+ "      <title>" +:+ title +:+ "</title>" +:+ nl
  +:+ "      <link>" +:+ link +:+ "</link>" +:+ nl
  +:+ "      <guid isPermaLink=" +:+ dq +:+ permalink +:+ dq +:+ ">" +:+ guid +:+ "</guid>" +:+ nl
  +:+ "      " +:+ authorTag +:+ nl
  +:+ "      <description><![CDATA[" +:+ descText +:+ "]]></description>" +:+ enclosure +:+ nl
  +:+ "    </item>".

(** The layout of the enclosure element, with its leading line break. *)
Definition enclosureLayout (url : string) : string :=
  nl +:+ "      <enclosure url=" +:+ dq +:+ url +:+ dq +:+ " type=" +:+ dq
     +:+ "image/jpeg" +:+ dq +:+ " />".

Lemma itemXml_layout it :
  itemXml it =
  itemLayout (itemTitle it) (itemLink it) (isPermaLink it) (guid it)
             (authorTag it) (descText it) (enclosure it).
Proof.
  unfold itemXml, itemLayout. cbn [String.concat].
  repeat (rewrite ?append_assoc; simpl). reflexivity.
Qed.

Section FeedProperties.
Context `{Host}.

(** [out] is the escaped text of the value [v] (of the empty text when
    [v] is [null] or [undefined]). *)
Definition escapedFrom (v : JsVal) (out : string) : Prop :=
  exists t, ToString (v ?? JStr "") = Ok t /\ out = escapeText t.

(** Every text of the item [it] that comes from the record [a] and is
    placed outside the CDATA block went through the escaper. *)
Record itemEscaped (a : JsVal) (it : Item) : Prop := {
  title_escaped : escapedFrom (a ?. "title") (itemTitle it);
  link_escaped : escapedFrom (a ?. "url") (itemLink it);
  guid_escaped :
    guid it = escapeText (itemLink it) \/
    exists t, ToString (a ?. "aid" ?? JStr "") = Ok t /\ guid it = escapeText t;
  author_escaped : escapedFrom (a ?. "user_info" ?. "username") (author it);
  authorTag_escaped :
    authorTag it = "<author>" +:+ author it +:+ "</author>" \/
    authorTag it = "<author />";
  enclosure_escaped :
    enclosure it = "" \/
    exists url, escapedFrom (a ?. "pic_path") url /\ enclosure it = enclosureLayout url;
}.

Lemma escapeXml_Ok v out : escapeXml v = Ok out -> escapedFrom v out.
Proof.
  unfold escapeXml. intros Hb. bind_inv Hb. injection Hb as <-. now exists a.
Qed.

Lemma escapeXml_nullish v out : escapeXml (v ?? JStr "") = Ok out -> escapedFrom v out.
Proof.
  intros Hb. apply escapeXml_Ok in Hb. destruct Hb as (t & Ht & ->).
  exists t. split; [|reflexivity]. now destruct v.
Qed.

Lemma escapeXml_JStr s : escapeXml (JStr s) = Ok (escapeText s).
Proof. reflexivity. Qed.

Lemma escapedFrom_safe v out : escapedFrom v out -> xmlSafe out = true.
Proof. intros (t & _ & ->). apply xmlSafe_escapeText. Qed.

Lemma itemOf_escaped a it : itemOf a = Ok it -> itemEscaped a it.
Proof.
  unfold itemOf. intros Hb.
  bind_inv Hb. rename a0 into t, Ha0 into Ht.
  bind_inv Hb. rename a0 into l, Ha0 into Hl.
  bind_inv Hb. rename a0 into raw, Ha0 into Hraw.
  bind_inv Hb. rename a0 into g, Ha0 into Hg.
  bind_inv Hb. rename a0 into au, Ha0 into Hau.
  bind_inv Hb. rename a0 into en, Ha0 into Hen.
  injection Hb as <-.
  rewrite escapeXml_JStr in Hg. injection Hg as <-.
  split; cbn [itemTitle itemLink guid author authorTag enclosure].
  - now apply escapeXml_nullish.
  - now apply escapeXml_nullish.
  - destruct (nonEmpty l).
    + left. now injection Hraw as <-.
    + right. now exists raw.
  - now apply escapeXml_nullish.
  - destruct (nonEmpty au); [now left | now right].
  - unfold enclosureOf in Hen. destruct (truthy (a ?. "pic_path")) eqn:Et.
    + bind_inv Hen. injection Hen as <-. right. exists a0. split; [|reflexivity].
      apply escapeXml_Ok in Ha0. destruct Ha0 as (u & Hu & ->). exists u.
      split; [|reflexivity]. now destruct (a ?. "pic_path").
    + injection Hen as <-. now left.
Qed.

Lemma ToString_printable (v : JsVal) :
  printable v = true -> exists s, ToString v = Ok s.
Proof.
  induction v as [| |b|n|s|elems IH|props] using JsVal_nested_ind; intros Hp.
  - now eexists.
  - now eexists.
  - destruct b; now eexists.
  - now eexists.
  - now eexists.
  - cbn [ToString].
    match goal with |- context [fmap _ (?f elems)] => set (go := f) end.
    assert (Hgo : exists ss, go elems = Ok ss).
    { cbn [printable] in Hp. induction elems as [|e elems IHe].
      - now eexists.
      - cbn [forallb] in Hp. apply andb_prop in Hp as [Hpe Hpl].
        inversion IH as [|? ? He Hl]; subst.
        destruct (IHe Hl Hpl) as [ss Hss].
        destruct (He Hpe) as [s Hs].
        cbn [go]. fold go. rewrite Hss.
        destruct e; try (rewrite Hs); now eexists. }
    destruct Hgo as [ss ->]. now eexists.
  - cbn [ToString printable] in *. apply bool_decide_eq_true in Hp. rewrite Hp.
    now eexists.
Qed.

Lemma escapeXml_printable (v : JsVal) :
  printable v = true -> exists out, escapeXml (v ?? JStr "") = Ok out.
Proof.
  intros Hp. unfold escapeXml.
  assert (Hp' : printable (v ?? JStr "" ?? JStr "") = true) by (now destruct v).
  destruct (ToString_printable _ Hp') as [s ->]. now eexists.
Qed.

(** A record with printable fields has an item. *)
Lemma itemOf_total (a : JsVal) :
  recordPrintable a = true -> exists it, itemOf a = Ok it.
Proof.
  unfold recordPrintable. intros Hp.
  apply andb_prop in Hp as [Hp Hpic]. apply andb_prop in Hp as [Hp Huser].
  apply andb_prop in Hp as [Hp Haid]. apply andb_prop in Hp as [Htitle Hurl].
  unfold itemOf.
  destruct (escapeXml_printable _ Htitle) as [t ->].
  destruct (escapeXml_printable _ Hurl) as [l ->].
  cbn [mbind Result_bind].
  assert (Hraw : exists raw,
             (if nonEmpty l then Ok l else ToString (a ?. "aid" ?? JStr "")) = Ok raw).
  { destruct (nonEmpty l); [now eexists|].
    apply ToString_printable. now destruct (a ?. "aid"). }
  destruct Hraw as [raw ->]. cbn [mbind Result_bind].
  rewrite escapeXml_JStr. cbn [mbind Result_bind].
  destruct (escapeXml_printable _ Huser) as [au ->]. cbn [mbind Result_bind].
  assert (Hen : exists en, enclosureOf (a ?. "pic_path") = Ok en).
  { unfold enclosureOf. destruct (truthy (a ?. "pic_path")) eqn:Ht; [|now eexists].
    destruct (escapeXml_printable _ Hpic) as [u Hu].
    assert (Hu' : escapeXml (a ?. "pic_path") = Ok u).
    { unfold escapeXml in *. now destruct (a ?. "pic_path"). }
    rewrite Hu'. now eexists. }
  destruct Hen as [en ->]. now eexists.
Qed.

(** A list of records with printable fields has a feed document. *)
Lemma buildRss_total now records opts :
  forallb recordPrintable records = true ->
  exists doc, buildRssFromHotArticles now records opts = Ok doc.
Proof.
  intros Hp. unfold buildRssFromHotArticles.
  assert (Hm : exists texts, mapResult hotArticleItem records = Ok texts).
  { induction records as [|a records IH]; [now eexists|].
    cbn [forallb] in Hp. apply andb_prop in Hp as [Ha Hl].
    destruct (IH Hl) as [texts Ht]. destruct (itemOf_total a Ha) as [it Hit].
    cbn [mapResult].
    assert (Hitem : hotArticleItem a = Ok (itemXml it))
      by (unfold hotArticleItem; now rewrite Hit).
    rewrite Hitem. cbn [mbind Result_bind]. rewrite Ht. now eexists. }
  destruct Hm as [texts ->]. rewrite !escapeXml_JStr. now eexists.
Qed.

Lemma hotArticleItem_Ok a s :
  hotArticleItem a = Ok s -> exists it, itemOf a = Ok it /\ s = itemXml it.
Proof. unfold hotArticleItem. apply fmap_Ok. Qed.

Lemma mapResult_items records texts :
  mapResult hotArticleItem records = Ok texts ->
  exists items, Forall2 (fun a it => itemOf a = Ok it) records items
                /\ texts = map itemXml items.
Proof.
  revert texts. induction records as [|a records IH]; intros texts Hm; simpl in Hm.
  - injection Hm as <-. exists []. split; [constructor | reflexivity].
  - bind_inv Hm. bind_inv Hm. injection Hm as <-.
    apply hotArticleItem_Ok in Ha0. destruct Ha0 as (it & Hit & ->).
    destruct (IH _ Ha1) as (items & Hall & ->).
    exists (it :: items). split; [now constructor | reflexivity].
Qed.

Lemma buildRss_document now records opts doc :
  buildRssFromHotArticles now records opts = Ok doc ->
  exists items,
    Forall2 (fun a it => itemOf a = Ok it) records items /\
    doc = rssDocument (escapeText (default "虎嗅 - 热门文章" (title opts)))
                      (escapeText (default HOME_URL (link opts)))
                      (escapeText (default "来自 m.huxiu.com 首页的 hotArticlesList"
                                     (description opts)))
                      now (map itemXml items).
Proof.
  unfold buildRssFromHotArticles. intros Hb.
  bind_inv Hb. apply fmap_Ok in Ha. destruct Ha as (texts & Hm & ->).
  rewrite !escapeXml_JStr in Hb. cbn [mbind Result_bind] in Hb.
  injection Hb as <-.
  destruct (mapResult_items _ _ Hm) as (items & Hall & ->).
  exists items. split; [exact Hall|].
  unfold rssDocument. cbn [String.concat].
  repeat (rewrite ?append_assoc; simpl). reflexivity.
Qed.
End FeedProperties.

(** ** The retry loop *)

Lemma le_floor_iff (z : Z) (q : Q) : (z <= Qfloor q)%Z <-> (inject_Z z <= q)%Q.
Proof.
  split; intros Hle.
  - apply Qle_trans with (inject_Z (Qfloor q)); [|apply Qfloor_le].
    now rewrite <- Zle_Qle.
  - apply Qfloor_resp_le in Hle. now rewrite Qfloor_Z in Hle.
Qed.

Lemma attempt_in_range (attempt : Z) (attempts : Q) :
  Qle_bool (inject_Z attempt) attempts = true <-> (attempt <= Qfloor attempts)%Z.
Proof. now rewrite Qle_bool_iff, le_floor_iff. Qed.

Lemma attempt_not_last (attempt : Z) (attempts : Q) :
  (attempt < Qfloor attempts)%Z -> Qle_bool attempts (inject_Z attempt) = false.
Proof.
  intros Hlt. destruct (Qle_bool attempts (inject_Z attempt)) eqn:Hb; [|reflexivity].
  apply Qle_bool_iff in Hb. apply Qfloor_resp_le in Hb. rewrite Qfloor_Z in Hb. lia.
Qed.

Lemma attempt_out_of_range (attempt : Z) (attempts : Q) :
  (Qfloor attempts < attempt)%Z -> Qle_bool (inject_Z attempt) attempts = false.
Proof.
  intros Hlt. destruct (Qle_bool (inject_Z attempt) attempts) eqn:Hb; [|reflexivity].
  apply attempt_in_range in Hb. lia.
Qed.

Lemma effectiveAttempts_ge_1 (maxAttempts : option Q) :
  (1 <= Qfloor (effectiveAttempts maxAttempts))%Z.
Proof. apply le_floor_iff. unfold effectiveAttempts. apply Q.le_max_l. Qed.

Lemma effectiveAttempts_missing : Qfloor (effectiveAttempts None) = 1%Z.
Proof. reflexivity. Qed.

Lemma effectiveAttempts_integer (z : Z) :
  Qfloor (effectiveAttempts (Some (inject_Z z))) = Z.max 1 z.
Proof.
  change (effectiveAttempts (Some (inject_Z z))) with (Qmax 1 (inject_Z z)).
  destruct (Q.max_spec 1 (inject_Z z)) as [[Hlt Heq]|[Hle Heq]];
    rewrite (Qfloor_comp _ _ Heq).
  - rewrite Qfloor_Z. change 1%Q with (inject_Z 1) in Hlt.
    rewrite <- Zlt_Qlt in Hlt. lia.
  - change 1%Q with (inject_Z 1) in Hle. rewrite <- Zle_Qle in Hle.
    change (Qfloor 1) with 1%Z. lia.
Qed.

Section RetryProperties.
Context {A : Type}.
Variable cfg : Config.
Variable random : nat -> Q.
Variable fn : nat -> Result A.
Variable opLabel : string.
Variable attempts : Q.

(** The operation fails [n] more times and then succeeds, within the
    ceiling: the loop returns that success after [n + 1] invocations. *)
Lemma retryLoop_succeeds (v : A) (n : nat) :
  forall (fuel : nat) (attempt : Z) (lastError : Error) (w : World),
    (forall i, (i < n)%nat -> exists e, fn (invocations w + i) = Throw e) ->
    fn (invocations w + n) = Ok v ->
    (attempt + Z.of_nat n <= Qfloor attempts)%Z ->
    (n < fuel)%nat ->
    exists w', retryLoop cfg random fn fuel opLabel attempts attempt lastError w = Some (Ok v, w')
               /\ invocations w' = (invocations w + n + 1)%nat.
Proof.
  induction n as [|n IH]; intros fuel attempt lastError w Hfail Hok Hle Hfuel;
    destruct fuel as [|fuel]; try lia; cbn [retryLoop].
  - rewrite (proj2 (attempt_in_range attempt attempts)) by lia.
    unfold invoke. rewrite Nat.add_0_r in Hok. rewrite Hok.
    eexists. split; [reflexivity|]. cbn. lia.
  - rewrite (proj2 (attempt_in_range attempt attempts)) by lia.
    unfold invoke. destruct (Hfail 0%nat) as [e He]; [lia|].
    rewrite Nat.add_0_r in He. rewrite He.
    rewrite attempt_not_last by lia. cbn [drawDelay].
    match goal with |- context [retryLoop cfg random fn fuel opLabel attempts _ e ?w1] =>
      destruct (IH fuel (attempt + 1)%Z e w1) as (w' & Hrun & Hinv) end.
    + intros i Hi. cbn [warnAndSleep invocations].
      destruct (Hfail (S i)) as [e' He']; [lia|]. exists e'.
      now replace (S (invocations w) + i)%nat with (invocations w + S i)%nat by lia.
    + cbn [warnAndSleep invocations].
      now replace (S (invocations w) + n)%nat with (invocations w + S n)%nat by lia.
    + lia.
    + lia.
    + exists w'. split; [exact Hrun|]. cbn [warnAndSleep invocations] in Hinv. lia.
Qed.

(** The operation fails on every attempt the ceiling allows: the loop
    ends by throwing the failure of the last invocation. *)
Lemma retryLoop_exhausts (n : nat) :
  forall (fuel : nat) (attempt : Z) (lastError : Error) (w : World),
    (forall i, (i <= n)%nat -> exists e, fn (invocations w + i) = Throw e) ->
    (attempt + Z.of_nat n = Qfloor attempts)%Z ->
    (S n < fuel)%nat ->
    exists e w', fn (invocations w + n) = Throw e
                 /\ retryLoop cfg random fn fuel opLabel attempts attempt lastError w = Some (Throw e, w')
                 /\ invocations w' = (invocations w + n + 1)%nat.
Proof.
  induction n as [|n IH]; intros fuel attempt lastError w Hfail Hle Hfuel;
    destruct fuel as [|fuel]; try lia; cbn [retryLoop].
  - rewrite (proj2 (attempt_in_range attempt attempts)) by lia.
    unfold invoke. destruct (Hfail 0%nat) as [e He]; [lia|].
    exists e. rewrite Nat.add_0_r in *. rewrite He.
    destruct (Qle_bool attempts (inject_Z attempt)).
    + eexists. split; [reflexivity|]. split; [reflexivity|]. cbn. lia.
    + cbn [drawDelay]. destruct fuel as [|fuel]; [lia|]. cbn [retryLoop].
      rewrite attempt_out_of_range by lia.
      eexists. split; [reflexivity|]. split; [reflexivity|]. cbn. lia.
  - rewrite (proj2 (attempt_in_range attempt attempts)) by lia.
    unfold invoke. destruct (Hfail 0%nat) as [e He]; [lia|].
    rewrite Nat.add_0_r in He. rewrite He.
    rewrite attempt_not_last by lia. cbn [drawDelay].
    match goal with |- context [retryLoop cfg random fn fuel opLabel attempts _ e ?w1] =>
      destruct (IH fuel (attempt + 1)%Z e w1) as (e' & w' & He' & Hrun & Hinv) end.
    + intros i Hi. cbn [warnAndSleep invocations].
      destruct (Hfail (S i)) as [e2 He2]; [lia|]. exists e2.
      now replace (S (invocations w) + i)%nat with (invocations w + S i)%nat by lia.
    + lia.
    + lia.
    + cbn [warnAndSleep invocations] in He', Hinv.
      exists e', w'. split; [|split; [exact Hrun | lia]].
      now replace (invocations w + S n)%nat with (S (invocations w) + n)%nat by lia.
Qed.

(** Whatever the operation does, the loop ends within the fuel that
    [withRetry] gives it, after at most [n] further invocations, where
    [n] counts the attempts the ceiling still allows. *)
Lemma retryLoop_total (n : nat) :
  forall (fuel : nat) (attempt : Z) (lastError : Error) (w : World),
    (attempt + Z.of_nat n = Qfloor attempts + 1)%Z ->
    (n < fuel)%nat ->
    exists r w', retryLoop cfg random fn fuel opLabel attempts attempt lastError w = Some (r, w')
                 /\ (invocations w + (if n is O then 0 else 1) <= invocations w')%nat
                 /\ (invocations w' <= invocations w + n)%nat.
Proof.
  induction n as [|n IH]; intros fuel attempt lastError w Hle Hfuel;
    destruct fuel as [|fuel]; try lia; cbn [retryLoop].
  - rewrite attempt_out_of_range by lia. do 2 eexists. split; [reflexivity|]. lia.
  - rewrite (proj2 (attempt_in_range attempt attempts)) by lia.
    unfold invoke. destruct (fn (invocations w)) as [v|e].
    + do 2 eexists. split; [reflexivity|]. cbn. lia.
    + destruct (Qle_bool attempts (inject_Z attempt)).
      * do 2 eexists. split; [reflexivity|]. cbn. lia.
      * cbn [drawDelay].
        match goal with |- context [retryLoop cfg random fn fuel opLabel attempts _ e ?w1] =>
          destruct (IH fuel (attempt + 1)%Z e w1) as (r & w' & Hrun & Hlo & Hhi) end;
          [lia | lia |].
        exists r, w'. split; [exact Hrun|].
        cbn [warnAndSleep invocations] in Hlo, Hhi. destruct n; lia.
Qed.
End RetryProperties.

(** ** The pattern of extractNuxtExpression *)

(** A run of white-space characters. *)
Inductive WsText : string -> Prop :=
| WsText_nil : WsText ""
| WsText_cons (w r : string) : In w whiteSpace -> WsText r -> WsText (w +:+ r).

(** The texts an atom matches. *)
Definition atomMatches (a : Atom) (m : string) : Prop :=
  match a with
  | Lit text => m = text
  | Spaces => WsText m
  | Lazy => True
  | Opt text => m = "" \/ m = text
  end.

(** The texts a sequence of atoms matches. *)
Inductive seqMatches : list Atom -> string -> Prop :=
| seqMatches_nil : seqMatches [] ""
| seqMatches_cons (a : Atom) (atoms : list Atom) (m1 m2 : string) :
    atomMatches a m1 -> seqMatches atoms m2 -> seqMatches (a :: atoms) (m1 +:+ m2).

(** The whole regular expression. *)
Definition nuxtPattern : list Atom := reBefore ++ reGroup ++ reAfter.

(** [html] has a part that the regular expression matches. *)
Definition containsPattern (html : string) : Prop :=
  exists pre m post, html = pre +:+ m +:+ post /\ seqMatches nuxtPattern m.

Lemma stripPrefix_app p r : stripPrefix p (p +:+ r) = Some r.
Proof.
  induction p as [|c p IH]; simpl; [reflexivity|].
  now rewrite Ascii.eqb_refl.
Qed.

Lemma stripPrefix_Some p s r : stripPrefix p s = Some r -> s = p +:+ r.
Proof.
  revert s. induction p as [|c p IH]; intros s Hs; simpl in Hs.
  - now injection Hs as ->.
  - destruct s as [|b s]; [discriminate|].
    destruct (Ascii.eqb c b) eqn:Hcb; [|discriminate].
    apply Ascii.eqb_eq in Hcb as ->. simpl. f_equal. now apply IH.
Qed.

Lemma stripAny_Some ps s r :
  stripAny ps s = Some r -> exists p, In p ps /\ s = p +:+ r.
Proof.
  induction ps as [|p ps IH]; simpl; [discriminate|].
  destruct (stripPrefix p s) as [r'|] eqn:Hp.
  - intros [= <-]. exists p. split; [now left | now apply stripPrefix_Some].
  - intros Hs. destruct (IH Hs) as (p' & Hin & ->). exists p'. split; [now right | reflexivity].
Qed.

(** No white-space character is the beginning of another one. *)
Lemma stripWs_app w r : In w whiteSpace -> stripWs (w +:+ r) = Some r.
Proof.
  unfold whiteSpace. cbn [map bytes]. intros Hin.
  repeat (destruct Hin as [<-|Hin]; [reflexivity|]). contradiction.
Qed.

Lemma whiteSpace_length w : In w whiteSpace -> (1 <= String.length w)%nat.
Proof.
  unfold whiteSpace. cbn [map bytes]. intros Hin.
  repeat (destruct Hin as [<-|Hin]; [simpl; lia|]). contradiction.
Qed.

Lemma stripWs_Some s r : stripWs s = Some r -> exists w, In w whiteSpace /\ s = w +:+ r.
Proof. apply stripAny_Some. Qed.

Lemma spacesThen_sound {R : Type} fuel s (k : string -> option R) x :
  spacesThen fuel s k = Some x ->
  exists m r, s = m +:+ r /\ WsText m /\ k r = Some x.
Proof.
  revert s. induction fuel as [|fuel IH]; intros s Hs; simpl in Hs.
  - exists "", s. repeat split; [constructor | exact Hs].
  - destruct (stripWs s) as [r'|] eqn:Hw.
    + destruct (spacesThen fuel r' k) as [y|] eqn:Hin.
      * injection Hs as ->. destruct (IH _ Hin) as (m & r & -> & Hm & Hk).
        destruct (stripWs_Some _ _ Hw) as (w & Hwin & ->).
        exists (w +:+ m), r. rewrite append_assoc.
        repeat split; [now constructor | exact Hk].
      * exists "", s. repeat split; [constructor | exact Hs].
    + exists "", s. repeat split; [constructor | exact Hs].
Qed.

Lemma spacesThen_complete {R : Type} m :
  WsText m ->
  forall fuel r (k : string -> option R) x,
    k r = Some x -> (String.length m <= fuel)%nat ->
    exists y, spacesThen fuel (m +:+ r) k = Some y.
Proof.
  induction 1 as [|w m Hw Hm IH]; intros fuel r k x Hk Hfuel.
  - simpl. destruct fuel as [|fuel]; simpl; [now exists x|].
    destruct (stripWs r) as [r'|]; [|now exists x].
    destruct (spacesThen fuel r' k) as [y|]; [now exists y | now exists x].
  - rewrite append_length in Hfuel. pose proof (whiteSpace_length _ Hw) as Hlen.
    destruct fuel as [|fuel]; [lia|]. rewrite append_assoc. simpl.
    rewrite stripWs_app by exact Hw.
    destruct (IH fuel r k x Hk) as [y Hy]; [lia|]. rewrite Hy. now exists y.
Qed.

Lemma lazyThen_sound {R : Type} s (k : string -> option R) x :
  lazyThen s k = Some x -> exists m r, s = m +:+ r /\ k r = Some x.
Proof.
  induction s as [|c s IH]; simpl.
  - destruct (k "") as [y|] eqn:Hk; [|discriminate].
    intros [= <-]. now exists "", "".
  - destruct (k (String c s)) as [y|] eqn:Hk.
    + intros [= <-]. now exists "", (String c s).
    + intros Hs. destruct (IH Hs) as (m & r & -> & Hr).
      now exists (String c m), r.
Qed.

Lemma lazyThen_complete {R : Type} m r (k : string -> option R) x :
  k r = Some x -> exists y, lazyThen (m +:+ r) k = Some y.
Proof.
  intros Hk. induction m as [|c m IH]; simpl.
  - destruct r; simpl; rewrite Hk; now exists x.
  - destruct (k (String c (m +:+ r))) as [y|]; [now exists y | exact IH].
Qed.

Lemma matchSeq_sound {R : Type} atoms :
  forall s (k : string -> option R) x,
    matchSeq atoms s k = Some x ->
    exists m r, s = m +:+ r /\ seqMatches atoms m /\ k r = Some x.
Proof.
  induction atoms as [|a atoms IH]; intros s k x Hs; simpl in Hs.
  - exists "", s. repeat split; [constructor | exact Hs].
  - destruct a as [text| | |text].
    + destruct (stripPrefix text s) as [r|] eqn:Hp; [|discriminate].
      apply stripPrefix_Some in Hp as ->.
      destruct (IH _ _ _ Hs) as (m & r' & -> & Hm & Hk).
      exists (text +:+ m), r'. rewrite append_assoc.
      repeat split; [now constructor | exact Hk].
    + apply spacesThen_sound in Hs. destruct Hs as (m1 & r1 & -> & Hm1 & Hs).
      destruct (IH _ _ _ Hs) as (m & r' & -> & Hm & Hk).
      exists (m1 +:+ m), r'. rewrite append_assoc.
      repeat split; [now constructor | exact Hk].
    + apply lazyThen_sound in Hs. destruct Hs as (m1 & r1 & -> & Hs).
      destruct (IH _ _ _ Hs) as (m & r' & -> & Hm & Hk).
      exists (m1 +:+ m), r'. rewrite append_assoc.
      repeat split; [now constructor | exact Hk].
    + assert (Hskip : matchSeq atoms s k = Some x ->
                exists m r, s = m +:+ r /\ seqMatches (Opt text :: atoms) m /\ k r = Some x).
      { intros Hs'. destruct (IH _ _ _ Hs') as (m & r' & -> & Hm & Hk).
        exists ("" +:+ m), r'. repeat split; [|exact Hk].
        constructor; [now left | exact Hm]. }
      destruct (stripPrefix text s) as [r|] eqn:Hp; [|now apply Hskip].
      destruct (matchSeq atoms r k) as [y|] eqn:Hr; [|now apply Hskip].
      injection Hs as ->. apply stripPrefix_Some in Hp as ->.
      destruct (IH _ _ _ Hr) as (m & r' & -> & Hm & Hk).
      exists (text +:+ m), r'. rewrite append_assoc.
      repeat split; [|exact Hk]. constructor; [now right | exact Hm].
Qed.

Lemma matchSeq_complete {R : Type} atoms m :
  seqMatches atoms m ->
  forall r (k : string -> option R) x,
    k r = Some x -> exists y, matchSeq atoms (m +:+ r) k = Some y.
Proof.
  induction 1 as [|a atoms m1 m2 Ha Hm IH]; intros r k x Hk.
  - now exists x.
  - destruct (IH r k x Hk) as [y Hy]. rewrite append_assoc.
    destruct a as [text| | |text]; simpl in Ha |- *.
    + subst m1. rewrite stripPrefix_app. now exists y.
    + eapply spacesThen_complete; [exact Ha | exact Hy |].
      rewrite append_length. lia.
    + eapply lazyThen_complete. exact Hy.
    + destruct Ha as [-> | ->].
      * simpl. destruct (stripPrefix text (m2 +:+ r)) as [r'|]; [|now exists y].
        destruct (matchSeq atoms r' k) as [z|]; [now exists z | now exists y].
      * rewrite stripPrefix_app. rewrite Hy. now exists y.
Qed.

Lemma seqMatches_app l1 l2 m1 m2 :
  seqMatches l1 m1 -> seqMatches l2 m2 -> seqMatches (l1 ++ l2) (m1 +:+ m2).
Proof.
  induction 1 as [|a atoms x y Ha Hm IH]; intros H2; [exact H2|].
  rewrite append_assoc. simpl. constructor; auto.
Qed.

Lemma seqMatches_app_inv l1 l2 m :
  seqMatches (l1 ++ l2) m ->
  exists m1 m2, m = m1 +:+ m2 /\ seqMatches l1 m1 /\ seqMatches l2 m2.
Proof.
  revert m. induction l1 as [|a l1 IH]; intros m Hm; simpl in Hm.
  - exists "", m. repeat split; [constructor | exact Hm].
  - inversion Hm as [|a' atoms x y Ha Hy]; subst.
    destruct (IH _ Hy) as (m1 & m2 & -> & H1 & H2).
    exists (x +:+ m1), m2. rewrite append_assoc.
    repeat split; [now constructor | exact H2].
Qed.

Lemma takeChars_app m r : takeChars (String.length m) (m +:+ r) = m.
Proof. induction m as [|c m IH]; simpl; [now destruct r | now rewrite IH]. Qed.

Lemma between_app m r : between (m +:+ r) r = m.
Proof.
  unfold between. rewrite append_length.
  replace (String.length m + String.length r - String.length r)%nat
    with (String.length m) by lia.
  apply takeChars_app.
Qed.

(** A match at the head of [s] returns the text of the group. *)
Lemma matchHere_sound s g :
  matchHere s = Some g ->
  exists b a r, s = b +:+ g +:+ a +:+ r /\ seqMatches reBefore b
                /\ seqMatches reGroup g /\ seqMatches reAfter a.
Proof.
  unfold matchHere. intros Hs.
  apply matchSeq_sound in Hs. destruct Hs as (b & s1 & -> & Hb & Hs).
  apply matchSeq_sound in Hs. destruct Hs as (grp & s2 & -> & Hg & Hs).
  apply matchSeq_sound in Hs. destruct Hs as (a & r & -> & Ha & Hs).
  injection Hs as <-. rewrite between_app.
  now exists b, a, r.
Qed.

Lemma matchHere_complete m r :
  seqMatches nuxtPattern m -> exists g, matchHere (m +:+ r) = Some g.
Proof.
  unfold nuxtPattern. intros Hm.
  apply seqMatches_app_inv in Hm. destruct Hm as (b & m' & -> & Hb & Hm).
  apply seqMatches_app_inv in Hm. destruct Hm as (grp & a & -> & Hg & Ha).
  unfold matchHere. rewrite !append_assoc.
  set (s1 := grp +:+ a +:+ r).
  destruct (matchSeq_complete reAfter a Ha r (fun _ => Some (between s1 (a +:+ r)))
              (between s1 (a +:+ r)) eq_refl) as [y1 Hy1].
  destruct (matchSeq_complete reGroup grp Hg (a +:+ r)
              (fun s2 => matchSeq reAfter s2 (fun _ => Some (between s1 s2)))
              y1 Hy1) as [y2 Hy2].
  eapply (matchSeq_complete reBefore b Hb s1
            (fun s1 => matchSeq reGroup s1 (fun s2 =>
               matchSeq reAfter s2 (fun _ => Some (between s1 s2))))).
  exact Hy2.
Qed.

Lemma exec_sound html g :
  exec html = Some g -> exists pre s, html = pre +:+ s /\ matchHere s = Some g.
Proof.
  induction html as [|c html IH]; cbn [exec].
  - destruct (matchHere "") as [y|] eqn:Hm; [|discriminate].
    intros [= <-]. now exists "", "".
  - destruct (matchHere (String c html)) as [y|] eqn:Hm.
    + intros [= <-]. now exists "", (String c html).
    + intros Hs. destruct (IH Hs) as (pre & s & -> & Hs').
      now exists (String c pre), s.
Qed.

Lemma exec_complete pre s g :
  matchHere s = Some g -> exists g', exec (pre +:+ s) = Some g'.
Proof.
  intros Hm. induction pre as [|c pre IH]; cbn [append exec].
  - destruct s; cbn [exec]; rewrite Hm; now exists g.
  - destruct (matchHere (String c (pre +:+ s))) as [y|]; [now exists y | exact IH].
Qed.

(** [exec] finds a match exactly when the text has one. *)
Lemma exec_containsPattern html :
  (exists g, exec html = Some g) <-> containsPattern html.
Proof.
  split.
  - intros [g Hg]. apply exec_sound in Hg. destruct Hg as (pre & s & -> & Hs).
    apply matchHere_sound in Hs. destruct Hs as (b & a & r & -> & Hb & Hg & Ha).
    exists pre, (b +:+ g +:+ a), r. rewrite !append_assoc. split; [reflexivity|].
    unfold nuxtPattern. auto using seqMatches_app.
  - intros (pre & m & post & -> & Hm).
    destruct (matchHere_complete m post Hm) as [g Hg].
    eapply exec_complete, Hg.
Qed.



(** ** Number on decimal numerals *)

(** [s] consists of decimal digits. *)
Fixpoint allDigits (s : string) : bool :=
  match s with
  | EmptyString => true
  | String c r => isDigit c && allDigits r
  end.

Lemma digitValue_pretty (m : N) :
  (m < 10)%N -> digitValue 10 (pretty_N_char m) = Some (Z.of_N m).
Proof.
  intros Hm.
  assert (Hc : (m = 0 \/ m = 1 \/ m = 2 \/ m = 3 \/ m = 4 \/ m = 5 \/ m = 6
               \/ m = 7 \/ m = 8 \/ m = 9)%N) by lia.
  repeat (destruct Hc as [-> | Hc]; [reflexivity|]). now subst.
Qed.

Lemma isDigit_pretty (m : N) : isDigit (pretty_N_char m) = true.
Proof. unfold pretty_N_char. repeat case_match; reflexivity. Qed.

Lemma stripWs_digit c r : isDigit c = true -> stripWs (String c r) = None.
Proof.
  destruct c as [[] [] [] [] [] [] [] []]; try discriminate; reflexivity.
Qed.

Lemma digitValue_0 c : digitValue 0 c = None.
Proof.
  unfold digitValue.
  match goal with |- (if (?v <? 0)%Z then _ else _) = None =>
    destruct (Z.ltb_spec v 0) as [Hlt|]; [|reflexivity] end.
  exfalso. revert Hlt.
  repeat match goal with |- context [if ?b then _ else _] => destruct b eqn:? end;
    rewrite ?andb_true_iff, ?Z.leb_le in *; lia.
Qed.

Lemma takeDigits_pretty (x : N) :
  forall s, exists k : nat,
    ((0 < x)%N -> (1 <= k)%nat)
    /\ forall acc c,
         takeDigits 10 acc c (pretty_N_go x s)
         = takeDigits 10 (acc * 10 ^ Z.of_nat k + Z.of_N x)%Z (c + k)%nat s.
Proof.
  induction (N.lt_wf_0 x) as [x _ IH]. intros s.
  assert (Hx : (x = 0 \/ 0 < x)%N) by lia. destruct Hx as [->|Hx].
  - exists 0%nat. split; [lia|]. intros acc c. rewrite pretty_N_go_0.
    f_equal; [cbn; lia | lia].
  - rewrite pretty_N_go_step by exact Hx.
    destruct (IH (x `div` 10)%N (N.div_lt x 10 Hx eq_refl)
                 (String (pretty_N_char (x `mod` 10)) s)) as (k & _ & Hk).
    exists (S k). split; [lia|]. intros acc c. rewrite Hk. cbn [takeDigits].
    rewrite digitValue_pretty by (apply N.mod_lt; lia).
    f_equal; [|lia].
    rewrite Nat2Z.inj_succ, Z.pow_succ_r by lia.
    rewrite (N.div_mod x 10) at 3 by lia.
    rewrite N2Z.inj_add, N2Z.inj_mul. change (Z.of_N 10) with 10%Z. ring.
Qed.

Lemma allDigits_pretty (x : N) : forall s, allDigits s = true -> allDigits (pretty_N_go x s) = true.
Proof.
  induction (N.lt_wf_0 x) as [x _ IH]. intros s Hs.
  assert (Hx : (x = 0 \/ 0 < x)%N) by lia. destruct Hx as [->|Hx].
  - now rewrite pretty_N_go_0.
  - rewrite pretty_N_go_step by exact Hx. apply IH; [now apply N.div_lt|].
    cbn [allDigits]. now rewrite isDigit_pretty.
Qed.


Lemma trimStart_plain s : stripWs s = None -> trimStart s = s.
Proof. unfold trimStart. destruct (String.length s); simpl; [reflexivity|]. now intros ->. Qed.

Lemma trimEnd_digits s : allDigits s = true -> trimEnd s = s.
Proof.
  induction s as [|c r IH]; [reflexivity|]. cbn [allDigits]. intros Hd.
  apply andb_prop in Hd as [Hc Hr]. cbn [trimEnd].
  unfold allWs. rewrite trimStart_plain by (now apply stripWs_digit).
  cbn. now rewrite IH.
Qed.

Lemma nonDecimalInteger_digits s : allDigits s = true -> nonDecimalInteger s = None.
Proof.
  destruct s as [|c [|p digits]]; [reflexivity| |].
  - intros _. now destruct c as [[] [] [] [] [] [] [] []].
  - cbn [allDigits]. intros Hd. apply andb_prop in Hd as [_ Hd].
    apply andb_prop in Hd as [Hp _].
    destruct c as [[] [] [] [] [] [] [] []]; try reflexivity.
    cbn [nonDecimalInteger].
    assert (Hbase : (if Ascii.eqb p "x" || Ascii.eqb p "X" then 16
                     else if Ascii.eqb p "o" || Ascii.eqb p "O" then 8
                     else if Ascii.eqb p "b" || Ascii.eqb p "B" then 2 else 0)%Z = 0%Z).
    { destruct p as [[] [] [] [] [] [] [] []]; try discriminate; reflexivity. }
    rewrite Hbase. destruct digits as [|d ds]; [reflexivity|].
    cbn [takeDigits]. now rewrite digitValue_0.
Qed.

Lemma sign_of_digit c r :
  isDigit c = true ->
  match c with
  | "+"%char => (false, r)
  | "-"%char => (true, r)
  | _ => (false, String c r)
  end = (false, String c r).
Proof. destruct c as [[] [] [] [] [] [] [] []]; try discriminate; reflexivity. Qed.

Lemma not_Infinity_digit c r :
  isDigit c = true -> String.eqb (String c r) "Infinity" = false.
Proof. destruct c as [[] [] [] [] [] [] [] []]; try discriminate; reflexivity. Qed.

Lemma unsignedDecimal_digits s (v : Z) (k : nat) :
  takeDigits 10 0 0 s = (v, k, "") -> (1 <= k)%nat ->
  unsignedDecimal s = Some (inject_Z v * Qpower 10 (0 - Z.of_nat 0))%Q.
Proof.
  intros Ht Hk. unfold unsignedDecimal. rewrite Ht.
  destruct k as [|k]; [lia | reflexivity].
Qed.






(** * The claims *)

(** ** Feed items *)

(** The record of the specification's worked example:
    [{title:"A & B", url:"https://x/1", user_info:{username:"<me>"},
    is_original:true}]. *)
Definition sampleRecord : JsVal :=
  JObj (<["title" := JStr "A & B"]>
       (<["url" := JStr "https://x/1"]>
       (<["user_info" := JObj {["username" := JStr "<me>"]}]>
       {["is_original" := JBool true]}))).

(** A record with a picture and with markup characters in every field. *)
Definition markupRecord : JsVal :=
  JObj (<["title" := JStr "<b>'Q' & A</b>"]>
       (<["url" := JStr "https://x/?a=1&b=2"]>
       (<["aid" := JNum (Finite 7)]>
       (<["user_info" := JObj {["username" := JStr "me <me@x>"]}]>
       {["pic_path" := JStr "https://img/x.jpg?w=1&h=2"]})))).

(** A record whose only field is a link with an ampersand. *)
Definition ampersandRecord : JsVal :=
  JObj {["url" := JStr "https://x/?a=1&b=2"]}.

Definition sampleDate : string := "Tue, 03 Nov 2026 00:00:00 GMT".

(** C1.  For every article list and every record in it, each text that
    comes from a field of the record (title, url, aid, pic_path, username)
    and is placed in the document outside the CDATA block is the image of
    that field under the escaper, and therefore holds none of [<], [>],
    the double quote and the apostrophe, and [&] only at the head of an
    entity reference.  The document is the channel header followed by
    the items laid out around exactly these texts. *)
Theorem record_fields_escaped `{Host}
    (now : string) (records : list JsVal) (opts : Opts) (doc : string) :
  buildRssFromHotArticles now records opts = Ok doc ->
  exists items : list Item,
    doc = rssDocument (escapeText (default "虎嗅 - 热门文章" (title opts)))
                      (escapeText (default HOME_URL (link opts)))
                      (escapeText (default "来自 m.huxiu.com 首页的 hotArticlesList"
                                     (description opts)))
                      now
                      (map (fun it => itemLayout (itemTitle it) (itemLink it)
                                        (isPermaLink it) (guid it) (authorTag it)
                                        (descText it) (enclosure it)) items)
    /\ Forall2 (fun a it =>
         itemEscaped a it
         /\ xmlSafe (itemTitle it) = true
         /\ xmlSafe (itemLink it) = true
         /\ xmlSafe (guid it) = true
         /\ xmlSafe (author it) = true
         /\ (enclosure it = ""
             \/ exists url, xmlSafe url = true /\ enclosure it = enclosureLayout url))
       records items.
Proof.
  intros Hdoc. apply buildRss_document in Hdoc.
  destruct Hdoc as (items & Hitems & ->). exists items. split.
  - f_equal. apply map_ext. intros it. apply itemXml_layout.
  - eapply Forall2_impl; [exact Hitems|]. intros a it Hit.
    apply itemOf_escaped in Hit. split; [exact Hit|].
    destruct Hit as [Ht Hl Hg Ha _ He].
    repeat split; eauto using escapedFrom_safe.
    + destruct Hg as [-> | (t & _ & ->)]; apply xmlSafe_escapeText.
    + destruct He as [He | (url & Hurl & He)]; [now left|].
      right. exists url. eauto using escapedFrom_safe.
Qed.

Lemma record_fields_escaped_witness :
  exists doc,
    buildRssFromHotArticles (H := referenceHost) sampleDate
      [markupRecord; sampleRecord] noOpts = Ok doc
    /\ exists items : list Item,
         doc = rssDocument (escapeText "虎嗅 - 热门文章") (escapeText HOME_URL)
                 (escapeText "来自 m.huxiu.com 首页的 hotArticlesList") sampleDate
                 (map (fun it => itemLayout (itemTitle it) (itemLink it)
                                   (isPermaLink it) (guid it) (authorTag it)
                                   (descText it) (enclosure it)) items)
         /\ Forall2 (fun a it =>
              itemEscaped (H := referenceHost) a it
              /\ xmlSafe (itemTitle it) = true
              /\ xmlSafe (itemLink it) = true
              /\ xmlSafe (guid it) = true
              /\ xmlSafe (author it) = true
              /\ (enclosure it = ""
                  \/ exists url, xmlSafe url = true /\ enclosure it = enclosureLayout url))
            [markupRecord; sampleRecord] items.
Proof.
  eexists. split.
  - vm_compute. reflexivity.
  - apply (record_fields_escaped (H := referenceHost) sampleDate
             [markupRecord; sampleRecord] noOpts).
    vm_compute. reflexivity.
Defined.

(** C2, as amended.  For the one-record list of the worked example the
    item has the title [A &amp; B], a permalink guid equal to the escaped
    url, no enclosure, and the CDATA text [原创 | 作者：&lt;me&gt;]: the
    user name appears there in its escaped form. *)
Theorem sample_record_item `{Host} :
  exists it : Item,
    itemOf sampleRecord = Ok it
    /\ itemTitle it = "A &amp; B"
    /\ isPermaLink it = "true"
    /\ guid it = escapeText "https://x/1"
    /\ descText it = "原创 | 作者：&lt;me&gt;"
    /\ enclosure it = ""
    /\ buildRssFromHotArticles sampleDate [sampleRecord] noOpts
       = Ok (rssDocument (escapeText "虎嗅 - 热门文章") (escapeText HOME_URL)
               (escapeText "来自 m.huxiu.com 首页的 hotArticlesList") sampleDate
               [itemLayout "A &amp; B" "https://x/1" "true" "https://x/1"
                  "<author>&lt;me&gt;</author>" "原创 | 作者：&lt;me&gt;" ""]).
Proof. eexists. repeat split; vm_compute; reflexivity. Qed.

(** C2, as stated, fails: the CDATA text of the item is not
    [原创 | 作者：<me>]. *)
Lemma sample_record_description_not_raw :
  ~ exists it : Item,
      itemOf (H := referenceHost) sampleRecord = Ok it
      /\ itemTitle it = "A &amp; B"
      /\ isPermaLink it = "true"
      /\ guid it = escapeText "https://x/1"
      /\ descText it = "原创 | 作者：<me>"
      /\ enclosure it = "".
Proof.
  intros (it & Hit & _ & _ & _ & Hdesc & _).
  vm_compute in Hit. injection Hit as <-. discriminate Hdesc.
Qed.

(** What the code does for the guid of any record: the url's text is
    escaped twice when it is non-empty, and the guid is a permalink
    exactly then; otherwise the guid is the escaped text of [aid]. *)
Lemma guid_of_record `{Host} (a : JsVal) (it : Item) :
  itemOf a = Ok it ->
  exists url,
    ToString (a ?. "url" ?? JStr "") = Ok url
    /\ itemLink it = escapeText url
    /\ (url <> "" -> isPermaLink it = "true" /\ guid it = escapeText (escapeText url))
    /\ (url = "" ->
        isPermaLink it = "false"
        /\ exists aid, ToString (a ?. "aid" ?? JStr "") = Ok aid
                       /\ guid it = escapeText aid).
Proof.
  unfold itemOf. intros Hb.
  bind_inv Hb. bind_inv Hb. bind_inv Hb. bind_inv Hb. bind_inv Hb. bind_inv Hb.
  injection Hb as <-. unfold isPermaLink. cbn [itemLink guid].
  apply escapeXml_Ok in Ha1. destruct Ha1 as (url & Hurl & ->).
  assert (Hurl' : ToString (a ?. "url" ?? JStr "") = Ok url)
    by (now destruct (a ?. "url")).
  rewrite escapeXml_JStr in Ha3. injection Ha3 as <-.
  exists url. split; [exact Hurl'|]. split; [reflexivity|].
  unfold nonEmpty in *. split.
  - intros Hne. destruct (String.eqb_spec (escapeText url) "") as [He|He].
    + apply (proj1 (escapeText_empty url)) in He. contradiction.
    + cbn [negb] in *. injection Ha2 as <-. now split.
  - intros ->. cbn in Ha2 |- *. split; [reflexivity|]. now exists a2.
Qed.

(** A record with neither [url] nor [aid]: an empty guid that is not a
    permalink. *)
Lemma guid_of_empty_record `{Host} :
  exists it, itemOf (JObj ∅) = Ok it /\ isPermaLink it = "false" /\ guid it = "".
Proof. eexists. repeat split. Qed.

(** C3, evaluated where the code departs from it.  For the record
    [{url:"https://x/?a=1&b=2"}] the link is the escaped url,
    [https://x/?a=1&amp;b=2], but the guid is that text escaped once
    more, [https://x/?a=1&amp;amp;b=2], under [isPermaLink="true"]: read
    back, the link is the url and the guid is not. *)
Theorem guid_of_link_escaped_twice `{Host} :
  exists it : Item,
    itemOf ampersandRecord = Ok it
    /\ isPermaLink it = "true"
    /\ itemLink it = escapeText "https://x/?a=1&b=2"
    /\ itemLink it = "https://x/?a=1&amp;b=2"
    /\ guid it = "https://x/?a=1&amp;amp;b=2"
    /\ guid it <> escapeText "https://x/?a=1&b=2"
    /\ unescapeText (itemLink it) = "https://x/?a=1&b=2"
    /\ unescapeText (guid it) = "https://x/?a=1&amp;b=2".
Proof.
  eexists. repeat split; try (vm_compute; reflexivity). vm_compute. discriminate.
Qed.

(** ** Retrying *)

Definition defaultConfig : Config := configOf ∅.

(** An operation that fails twice and then returns a page. *)
Definition flakyFetch (n : nat) : Result string :=
  match n with
  | 0%nat => Throw (HttpError 503 "Service Unavailable")
  | 1%nat => Throw (TransportError "socket hang up")
  | _ => Ok "<html></html>"
  end.

(** C4, as amended.  Let the operation fail on its first [k] invocations
    and succeed on invocation [k + 1], and let [m] be the effective
    ceiling: the integer part of [max(1, ceiling)], which is
    [max(1, ceiling)] for an integer ceiling and 1 for a missing one.  If
    [m >= k + 1] the wrapper returns the success after exactly [k + 1]
    invocations; if [m <= k] it fails after exactly [m] invocations, and
    what it throws is the failure of the last invocation, unchanged. *)
Theorem retry_invocation_counts {A : Type}
    (cfg : Config) (random : nat -> Q) (fn : nat -> Result A)
    (k : nat) (v : A) (maxAttempts : option Q) (label : option string) (w : World) :
  invocations w = 0%nat ->
  (forall i, (i < k)%nat -> exists e, fn i = Throw e) ->
  fn k = Ok v ->
  let m := Qfloor (effectiveAttempts maxAttempts) in
  (maxAttempts = None -> m = 1%Z)
  /\ (forall z, maxAttempts = Some (inject_Z z) -> m = Z.max 1 z)
  /\ ((Z.of_nat k + 1 <= m)%Z ->
      exists w', withRetry cfg random fn maxAttempts label w = Some (Ok v, w')
                 /\ invocations w' = (k + 1)%nat)
  /\ ((m <= Z.of_nat k)%Z ->
      exists e w', fn (Z.to_nat m - 1)%nat = Throw e
                   /\ withRetry cfg random fn maxAttempts label w = Some (Throw e, w')
                   /\ Z.of_nat (invocations w') = m).
Proof.
  intros Hw Hfail Hok m.
  pose proof (effectiveAttempts_ge_1 maxAttempts) as Hm. fold m in Hm.
  split; [now intros -> |].
  split; [intros z ->; apply effectiveAttempts_integer |].
  unfold withRetry. fold m. split.
  - intros Hle.
    destruct (retryLoop_succeeds cfg random fn (default "operation" label)
                (effectiveAttempts maxAttempts) v k
                (S (Z.to_nat m)) 1%Z UndefinedThrown w) as (w' & Hrun & Hinv).
    + intros i Hi. rewrite Hw. now apply Hfail.
    + now rewrite Hw.
    + fold m. lia.
    + lia.
    + exists w'. split; [exact Hrun | lia].
  - intros Hle.
    destruct (retryLoop_exhausts cfg random fn (default "operation" label)
                (effectiveAttempts maxAttempts) (Z.to_nat m - 1)
                (S (Z.to_nat m)) 1%Z UndefinedThrown w) as (e & w' & He & Hrun & Hinv).
    + intros i Hi. rewrite Hw. apply Hfail. lia.
    + fold m. lia.
    + lia.
    + rewrite Hw in He. exists e, w'. split; [exact He|]. split; [exact Hrun | lia].
Qed.

Lemma retry_invocation_counts_witness :
  let m := Qfloor (effectiveAttempts (Some 3%Q)) in
  (Some 3%Q = None -> m = 1%Z)
  /\ (forall z, Some 3%Q = Some (inject_Z z) -> m = Z.max 1 z)
  /\ ((Z.of_nat 2 + 1 <= m)%Z ->
      exists w', withRetry defaultConfig (fun _ => 0%Q) flakyFetch (Some 3%Q) None initialWorld
                 = Some (Ok "<html></html>", w')
                 /\ invocations w' = (2 + 1)%nat)
  /\ ((m <= Z.of_nat 2)%Z ->
      exists e w', flakyFetch (Z.to_nat m - 1)%nat = Throw e
                   /\ withRetry defaultConfig (fun _ => 0%Q) flakyFetch (Some 3%Q) None initialWorld
                      = Some (Throw e, w')
                   /\ Z.of_nat (invocations w') = m).
Proof.
  apply (retry_invocation_counts defaultConfig (fun _ => 0%Q) flakyFetch 2
           "<html></html>" (Some 3%Q) None initialWorld).
  - reflexivity.
  - intros i Hi. destruct i as [|[|i]]; [eexists; reflexivity | eexists; reflexivity | lia].
  - reflexivity.
Defined.

(** C4, as stated, fails for a ceiling of zero: an operation that
    succeeds at once ([k = 0]) meets [ceiling <= k], yet the wrapper does
    not fail after zero invocations; it invokes the operation once and
    returns its result. *)
Lemma retry_ceiling_zero_still_invokes :
  let fn := fun _ : nat => Ok "<html></html>" in
  (exists w', withRetry defaultConfig (fun _ => 0%Q) fn (Some 0%Q) None initialWorld
              = Some (Ok "<html></html>", w')
              /\ invocations w' = 1%nat)
  /\ ~ (exists e w', withRetry defaultConfig (fun _ => 0%Q) fn (Some 0%Q) None initialWorld
                     = Some (Throw e, w')
                     /\ invocations w' = 0%nat).
Proof.
  split.
  - eexists. split; vm_compute; reflexivity.
  - intros (e & w' & Hrun & _). vm_compute in Hrun. discriminate Hrun.
Qed.


(** ** Backoff *)

#[local] Open Scope Q_scope.






#[local] Close Scope Q_scope.

(** ** Locating the article list *)

Lemma generateRss_after_fetch `{Host} cfg random network now w fetched w' :
  fetchHtmlWithRetry cfg random network HOME_URL w = Some (fetched, w') ->
  generateRss cfg random network now w = Some (fetched ≫= rssOfHtml now, w').
Proof. unfold generateRss. now intros ->. Qed.

(** C6.  The article list is found exactly when the [data] field of the
    recovered state is an ordered sequence and the [hotArticlesList]
    field of its first element is one too.  If [data] is not an ordered
    sequence, or has no first element, or the [hotArticlesList] of the
    first element is not an ordered sequence, the navigation fails with
    the list-not-found error, and so does the pipeline, which then
    produces no feed. *)
Theorem hot_articles_located `{Host} (nuxtData : JsVal) :
  let data := nuxtData ?. "data" in
  (forall records,
     locateHotArticles nuxtData = Ok records <->
     exists elems, data = JArr elems
                   /\ firstElement elems ?. "hotArticlesList" = JArr records)
  /\ ((isArray data = false
       \/ data = JArr []
       \/ exists elems, data = JArr elems
                        /\ isArray (firstElement elems ?. "hotArticlesList") = false) ->
      locateHotArticles nuxtData = Throw ListNotFound
      /\ (forall now html iifeExpr,
            extractNuxtExpression html = Ok iifeExpr ->
            evalNuxtExpression iifeExpr = Ok nuxtData ->
            rssOfHtml now html = Throw ListNotFound)
      /\ (forall cfg random network now w html w' iifeExpr,
            fetchHtmlWithRetry cfg random network HOME_URL w = Some (Ok html, w') ->
            extractNuxtExpression html = Ok iifeExpr ->
            evalNuxtExpression iifeExpr = Ok nuxtData ->
            generateRss cfg random network now w = Some (Throw ListNotFound, w'))).
Proof.
  intros data. split.
  - intros records. unfold locateHotArticles. fold data. split.
    + destruct data as [| | | | |elems|]; cbn; try discriminate.
      destruct (firstElement elems ?. "hotArticlesList") eqn:Hl; try discriminate.
      intros [= <-]. now exists elems.
    + intros (elems & -> & ->). reflexivity.
  - intros Hbad.
    assert (Hloc : locateHotArticles nuxtData = Throw ListNotFound).
    { unfold locateHotArticles. fold data.
      destruct Hbad as [Hd | [-> | (elems & -> & Hl)]].
      - now destruct data.
      - reflexivity.
      - now destruct (firstElement elems ?. "hotArticlesList"). }
    split; [exact Hloc|].
    assert (Hrss : forall now html iifeExpr,
               extractNuxtExpression html = Ok iifeExpr ->
               evalNuxtExpression iifeExpr = Ok nuxtData ->
               rssOfHtml now html = Throw ListNotFound).
    { intros now html iifeExpr He Hv. unfold rssOfHtml.
      rewrite He. cbn [mbind Result_bind]. rewrite Hv. cbn [mbind Result_bind].
      now rewrite Hloc. }
    split; [exact Hrss|].
    intros cfg random network now w html w' iifeExpr Hf He Hv.
    rewrite (generateRss_after_fetch _ _ _ _ _ _ _ Hf).
    cbn [mbind Result_bind]. now rewrite (Hrss now html iifeExpr He Hv).
Qed.

(** ** The sandbox result *)

(** The values JavaScript treats as false. *)
Definition falsy (v : JsVal) : Prop :=
  v = JUndefined \/ v = JNull \/ v = JBool false
  \/ (exists q, v = JNum (Finite q) /\ Qeq q 0)
  \/ v = JNum NaN \/ v = JStr "".

Lemma truthy_false_iff (v : JsVal) : truthy v = false <-> falsy v.
Proof.
  unfold falsy. split.
  - destruct v as [| |[|]|[q| | |]|s|elems|props]; cbn; try discriminate; auto 7.
    + intros Hq. apply negb_false_iff, Qeq_bool_iff in Hq. eauto 8.
    + intros Hs. apply negb_false_iff, String.eqb_eq in Hs. subst. auto 7.
  - intros [-> | [-> | [-> | [(q & -> & Hq) | [-> | ->]]]]]; try reflexivity.
    cbn. apply negb_false_iff, Qeq_bool_iff, Hq.
Qed.

(** C7, as amended.  For every value that the run leaves in the
    property, the evaluator fails with the no-result error if and only
    if the value is falsy: [undefined], [null], [false], zero, [NaN] or
    the empty text.  Every other value is returned as it is. *)
Theorem eval_rejects_falsy `{Host} (iifeExpr : string) (nuxt : JsVal) :
  runInContext (nuxtScript iifeExpr) = VmDone nuxt ->
  (evalNuxtExpression iifeExpr = Throw NoNuxtResult <-> falsy nuxt)
  /\ (~ falsy nuxt -> evalNuxtExpression iifeExpr = Ok nuxt).
Proof.
  intros Hrun. unfold evalNuxtExpression. rewrite Hrun.
  rewrite <- truthy_false_iff. destruct (truthy nuxt); split.
  - split; discriminate.
  - reflexivity.
  - split; reflexivity.
  - intros Hn. now contradiction Hn.
Qed.

Lemma eval_rejects_falsy_witness :
  let iifeExpr := "(function(a){return {data:a}}([]))" in
  let nuxt := JObj {["data" := JArr []]} in
  (evalNuxtExpression (H := referenceHost) iifeExpr = Throw NoNuxtResult <-> falsy nuxt)
  /\ (~ falsy nuxt -> evalNuxtExpression (H := referenceHost) iifeExpr = Ok nuxt).
Proof.
  apply (eval_rejects_falsy (H := referenceHost)). vm_compute. reflexivity.
Defined.

(** C7, as stated, fails for a value that is set but falsy: when the
    expression evaluates to 0 the property holds 0, which is neither
    [undefined] nor [null], and the evaluator still fails with the
    no-result error instead of returning 0. *)
Lemma eval_rejects_zero :
  let iifeExpr := "(function(a){return a}(0))" in
  runInContext (Host := referenceHost) (nuxtScript iifeExpr) = VmDone (JNum (Finite 0))
  /\ JNum (Finite 0) <> JUndefined
  /\ JNum (Finite 0) <> JNull
  /\ evalNuxtExpression (H := referenceHost) iifeExpr = Throw NoNuxtResult.
Proof. repeat split; try discriminate; vm_compute; reflexivity. Qed.

(** ** Configuration *)



(** How [Number] reads some texts. *)
Lemma Number_examples :
  Number "3" = Finite 3
  /\ Number " 12 " = Finite 12
  /\ Number "-2" = Finite (-2)
  /\ (exists q, Number "1e3" = Finite q /\ Qeq q 1000)
  /\ (exists q, Number "0.5" = Finite q /\ Qeq q (1 # 2))
  /\ Number "0x1F" = Finite 31
  /\ (exists q, Number " " = Finite q /\ Qeq q 0)
  /\ Number "abc" = NaN
  /\ Number "12px" = NaN
  /\ Number "Infinity" = PosInf
  /\ Number "-Infinity" = NegInf
  /\ Number "1e999" = PosInf.
Proof.
  repeat split; try (vm_compute; reflexivity);
    eexists; (split; [vm_compute; reflexivity | reflexivity]).
Qed.



(** ** Extraction *)

(** The assignment of the specification's example and the expression it
    assigns. *)
Definition nuxtAssignment : string :=
  "window.__NUXT__ = (function(a,b){return {data:[{hotArticlesList:[]}]}}(1,2));".
Definition nuxtExpression : string :=
  "(function(a,b){return {data:[{hotArticlesList:[]}]}}(1,2))".

(** [{data:[{hotArticlesList:[]}]}] *)
Definition emptyListState : JsVal :=
  JObj {["data" := JArr [JObj {["hotArticlesList" := JArr []]}]]}.





(** ** Worked examples *)

(** A record without fields: empty title, link and guid, a guid that is
    not a permalink, a self-closing author element, an empty CDATA
    block and no enclosure. *)
Example item_of_empty_record `{Host} :
  hotArticleItem (JObj ∅)
  = Ok (itemLayout "" "" "false" "" "<author />" "" "").
Proof. reflexivity. Qed.

(** A record with only a numeric [aid]: the guid is its decimal text. *)
Example item_of_aid_record `{Host} :
  hotArticleItem (JObj {["aid" := JNum (Finite 3120457)]})
  = Ok (itemLayout "" "" "false" "3120457" "<author />" "" "").
Proof. vm_compute. reflexivity. Qed.

(** A video with a picture: both markers and the enclosure. *)
Example item_of_video_record `{Host} :
  hotArticleItem
    (JObj (<["title" := JStr "T"]>
          (<["is_original" := JNum (Finite 1)]>
          (<["is_video_article" := JStr "yes"]>
          {["pic_path" := JStr "https://img/p.jpg"]}))))
  = Ok (itemLayout "T" "" "false" "" "<author />" "原创 | 视频"
          (enclosureLayout "https://img/p.jpg")).
Proof. vm_compute. reflexivity. Qed.

(** An object that hides [toString] cannot be converted to text: the
    callback raises a TypeError and no document is built. *)
Example item_of_unprintable_title `{Host} :
  buildRssFromHotArticles sampleDate
    [JObj {["title" := JObj {["toString" := JNum (Finite 1)]}]}] noOpts
  = Throw (TypeError "Cannot convert object to primitive value").
Proof. vm_compute. reflexivity. Qed.

(** An empty list gives a channel without items. *)
Example feed_of_empty_list `{Host} :
  buildRssFromHotArticles sampleDate [] noOpts
  = Ok (rssDocument "虎嗅 - 热门文章" HOME_URL
          "来自 m.huxiu.com 首页的 hotArticlesList" sampleDate []).
Proof. vm_compute. reflexivity. Qed.

(** The pattern tolerates white space, line breaks included, between its
    tokens, and stops at the first closing invocation. *)
Example extraction_with_white_space :
  extractNuxtExpression
    ("<script>window.__NUXT__" +:+ nl +:+ " = ( function (a) {return {data:a}} ([]) ) ;"
       +:+ "window.other = (function(){}());</script>")
  = Ok "( function (a) {return {data:a}} ([]) )".
Proof. vm_compute. reflexivity. Qed.

(** Navigation on recovered states of several shapes. *)
Example locate_examples `{Host} :
  locateHotArticles emptyListState = Ok []
  /\ locateHotArticles (JObj {["data" := JArr [JObj {["hotArticlesList" := JArr [sampleRecord]]}]]})
     = Ok [sampleRecord]
  /\ locateHotArticles (JObj ∅) = Throw ListNotFound
  /\ locateHotArticles (JObj {["data" := JObj ∅]}) = Throw ListNotFound
  /\ locateHotArticles (JObj {["data" := JArr []]}) = Throw ListNotFound
  /\ locateHotArticles (JObj {["data" := JArr [JNull]]}) = Throw ListNotFound
  /\ locateHotArticles (JObj {["data" := JArr [JObj {["hotArticlesList" := JStr "x"]}]]})
     = Throw ListNotFound.
Proof. repeat split. Qed.

(** The whole pipeline on a page served at the third request, with the
    reference host: two failures are retried, the page is parsed and
    the feed has the one item of the page. *)
Example pipeline_after_two_failures :
  let page :=
    "<html><script>window.__NUXT__=(function(a,b){return {data:[{hotArticlesList:"
    +:+ "[{title:a,url:b,aid:7}]}]}}('A & B','https://x/1'));</script></html>" in
  let network (n : nat) :=
    match n with
    | 0%nat => FetchResponse 503 "Service Unavailable" ""
    | 1%nat => FetchRejected "socket hang up"
    | _ => FetchResponse 200 "OK" page
    end in
  exists w,
    generateRss (H := referenceHost) defaultConfig (fun _ => (1 # 2)%Q) network sampleDate
      initialWorld
    = Some (Ok (rssDocument (escapeText "虎嗅 - 热门文章(hotArticlesList)") HOME_URL
                  (escapeText "从虎嗅移动端首页 __NUXT__ 中提取的热门文章列表")
                  sampleDate
                  [itemLayout "A &amp; B" "https://x/1" "true" "https://x/1"
                     "<author />" "" ""]), w)
    /\ invocations w = 3%nat
    /\ sleeps w = [1000%Q; 500%Q].
Proof. eexists. split; [vm_compute; reflexivity | split; reflexivity]. Qed.

(** * Further properties *)

(** ** The escaper *)

Definition isMarkup (c : ascii) : bool :=
  Ascii.eqb c "&" || Ascii.eqb c "<" || Ascii.eqb c ">" || Ascii.eqb c DQUOTE
  || Ascii.eqb c "'".

(** [s] holds none of the five characters the escaper replaces. *)
Fixpoint plainText (s : string) : bool :=
  match s with
  | EmptyString => true
  | String c r => negb (isMarkup c) && plainText r
  end.

Lemma escapeChar_plain c : isMarkup c = false -> escapeChar c = String c EmptyString.
Proof.
  unfold isMarkup, escapeChar. intros Hm.
  repeat (apply orb_false_elim in Hm as [Hm ?]).
  now repeat match goal with H : Ascii.eqb _ _ = false |- _ => rewrite H; clear H end.
Qed.

Lemma escapeChar_markup c :
  isMarkup c = true -> (4 <= String.length (escapeChar c))%nat.
Proof.
  unfold isMarkup, escapeChar. intros Hm.
  destruct (Ascii.eqb c "&"); [simpl; lia|].
  destruct (Ascii.eqb c "<"); [simpl; lia|].
  destruct (Ascii.eqb c ">"); [simpl; lia|].
  destruct (Ascii.eqb c DQUOTE); [simpl; lia|].
  destruct (Ascii.eqb c "'"); [simpl; lia | discriminate].
Qed.

Lemma escapeText_length s : (String.length s <= String.length (escapeText s))%nat.
Proof.
  induction s as [|c s IH]; [simpl; lia|].
  rewrite escapeText_cons, append_length. cbn [String.length].
  destruct (isMarkup c) eqn:Hm.
  - pose proof (escapeChar_markup c Hm). lia.
  - rewrite escapeChar_plain by exact Hm. simpl. lia.
Qed.

Lemma escapeText_plain s : escapeText s = s <-> plainText s = true.
Proof.
  induction s as [|c s IH]; [easy|].
  rewrite escapeText_cons. cbn [plainText]. destruct (isMarkup c) eqn:Hm.
  - split; [|discriminate]. intros Heq. exfalso.
    apply (f_equal String.length) in Heq. rewrite append_length in Heq.
    pose proof (escapeChar_markup c Hm). pose proof (escapeText_length s).
    cbn [String.length] in Heq. lia.
  - rewrite escapeChar_plain by exact Hm. cbn [negb andb append].
    rewrite <- IH. split; [now intros [= ->] | now intros ->].
Qed.

(** X1.  Escaping is reversible: reading the text that [escapeXml]
    returns back as character data gives the text of the value, and the
    escaped text is safe to place in element content and attribute
    values. *)
Theorem escapeXml_round_trip `{Host} (v : JsVal) (out : string) :
  escapeXml v = Ok out ->
  ToString (v ?? JStr "") = Ok (unescapeText out) /\ xmlSafe out = true.
Proof.
  intros Hv. apply escapeXml_Ok in Hv. destruct Hv as (t & Ht & ->).
  now rewrite unescapeText_escapeText, xmlSafe_escapeText.
Qed.

Lemma escapeXml_round_trip_witness :
  ToString (H := referenceHost) (JStr "a<b & 'c'" ?? JStr "")
  = Ok (unescapeText "a&lt;b &amp; &apos;c&apos;")
  /\ xmlSafe "a&lt;b &amp; &apos;c&apos;" = true.
Proof.
  apply (escapeXml_round_trip (H := referenceHost) (JStr "a<b & 'c'")).
  vm_compute. reflexivity.
Defined.

(** X2.  The escaper returns a text unchanged exactly when the text
    holds none of [&], [<], [>], the double quote and the apostrophe;
    it never shortens a text, and texts that differ have escapes that
    differ. *)
Theorem escapeXml_plain_text `{Host} (s : string) :
  (escapeXml (JStr s) = Ok s <-> plainText s = true)
  /\ (forall out, escapeXml (JStr s) = Ok out ->
                  (String.length s <= String.length out)%nat)
  /\ (forall s', escapeXml (JStr s) = escapeXml (JStr s') -> s = s').
Proof.
  rewrite escapeXml_JStr. split; [|split].
  - rewrite <- escapeText_plain. split; [now intros [= ->] | now intros ->].
  - intros out [= <-]. apply escapeText_length.
  - intros s'. rewrite escapeXml_JStr. intros [= Heq]. now apply escapeText_inj.
Qed.

(** ** The feed document *)

Lemma ToString_Throw `{Host} (v : JsVal) (e : Error) :
  ToString v = Throw e -> e = TypeError "Cannot convert object to primitive value".
Proof.
  induction v as [| |b|n|s|elems IH|props] using JsVal_nested_ind;
    cbn [ToString]; try discriminate.
  - destruct b; discriminate.
  - match goal with |- context [fmap _ (?f elems)] => set (go := f) end.
    assert (Hgo : go elems = Throw e ->
                  e = TypeError "Cannot convert object to primitive value").
    { induction elems as [|x elems IHe]; [discriminate|].
      inversion IH as [|? ? Hx Hl]; subst. cbn [go]. fold go.
      set (m := match x with
                | JUndefined | JNull => Ok ""
                | _ => ToString x
                end).
      assert (Hm : m = Throw e ->
                   e = TypeError "Cannot convert object to primitive value").
      { unfold m. destruct x; try discriminate; exact Hx. }
      destruct m as [t|e']; cbn [mbind Result_bind].
      - destruct (go elems); [discriminate | intros [= <-]; now apply IHe].
      - intros [= <-]. now apply Hm. }
    destruct (go elems); [discriminate|]. intros [= <-]. now apply Hgo.
  - destruct (props !! "toString"); [now intros [= <-] | discriminate].
Qed.

Lemma escapeXml_Throw `{Host} (v : JsVal) (e : Error) :
  escapeXml v = Throw e -> e = TypeError "Cannot convert object to primitive value".
Proof.
  unfold escapeXml. destruct (ToString (v ?? JStr "")) eqn:Ht; [discriminate|].
  intros [= <-]. now apply ToString_Throw in Ht.
Qed.

Lemma itemOf_Throw `{Host} (a : JsVal) (e : Error) :
  itemOf a = Throw e -> e = TypeError "Cannot convert object to primitive value".
Proof.
  unfold itemOf, enclosureOf.
  repeat match goal with
         | |- context [mbind _ ?m] =>
             lazymatch m with
             | Ok _ => cbn [mbind Result_bind]
             | Throw _ => cbn [mbind Result_bind]
             | _ =>
                 let E := fresh "E" in
                 destruct m eqn:E; cbn [mbind Result_bind]
             end
         end;
    try discriminate; intros [= <-];
    repeat match goal with
           | E : (if ?b then _ else _) = Throw _ |- _ => destruct b
           | E : Ok _ = Throw _ |- _ => discriminate E
           | E : mbind _ ?m = Throw _ |- _ =>
               let E' := fresh "E" in
               destruct m eqn:E'; cbn [mbind Result_bind] in E
           end;
    eauto using escapeXml_Throw, ToString_Throw; try discriminate;
    try (match goal with E : Throw _ = Throw _ |- _ => injection E as <- end;
         eauto using escapeXml_Throw, ToString_Throw).
Qed.

Lemma mapResult_app {A B : Type} (f : A -> Result B) xs ys :
  mapResult f (xs ++ ys)%list
  = (us ← mapResult f xs; vs ← mapResult f ys; Ok (us ++ vs)%list).
Proof.
  induction xs as [|x xs IH]; cbn [mapResult app].
  - cbn [mbind Result_bind]. now destruct (mapResult f ys).
  - destruct (f x) as [y|e]; cbn [mbind Result_bind]; [|reflexivity].
    rewrite IH. destruct (mapResult f xs) as [us|e]; cbn [mbind Result_bind];
      [|reflexivity].
    now destruct (mapResult f ys).
Qed.

Lemma mapResult_Throw {A B : Type} (f : A -> Result B) xs e :
  mapResult f xs = Throw e -> exists x, In x xs /\ f x = Throw e.
Proof.
  induction xs as [|x xs IH]; cbn [mapResult]; [discriminate|].
  destruct (f x) as [y|e'] eqn:Hx; cbn [mbind Result_bind].
  - destruct (mapResult f xs) as [ys|e'] eqn:Hm; [discriminate|].
    intros [= <-]. destruct (IH eq_refl) as (x' & Hin & Hx').
    exists x'. split; [now right | exact Hx'].
  - intros [= <-]. exists x. split; [now left | exact Hx].
Qed.

(** The texts of the channel, escaped, for the options given. *)
Definition channelTitle (opts : Opts) : string :=
  escapeText (default "虎嗅 - 热门文章" (title opts)).
Definition channelLink (opts : Opts) : string :=
  escapeText (default HOME_URL (link opts)).
Definition channelDescription (opts : Opts) : string :=
  escapeText (default "来自 m.huxiu.com 首页的 hotArticlesList" (description opts)).

Lemma buildRss_eq `{Host} now records opts :
  buildRssFromHotArticles now records opts
  = (texts ← mapResult hotArticleItem records;
     Ok (rssDocument (channelTitle opts) (channelLink opts) (channelDescription opts)
           now texts)).
Proof.
  unfold buildRssFromHotArticles.
  destruct (mapResult hotArticleItem records) as [texts|e];
    cbn [fmap Result_fmap mbind Result_bind]; [|reflexivity].
  rewrite !escapeXml_JStr. cbn [mbind Result_bind]. f_equal.
  unfold rssDocument, channelTitle, channelLink, channelDescription.
  cbn [String.concat]. repeat (rewrite ?append_assoc; simpl). reflexivity.
Qed.

(** X3.  The items of the document follow the records, one item per
    record and in the order of the list: the document of a list made of
    two parts holds the items of the first part and then those of the
    second, each item computed from its own record alone. *)
Theorem feed_items_follow_records `{Host}
    (now : string) (first second : list JsVal) (opts : Opts) (doc : string) :
  buildRssFromHotArticles now (first ++ second)%list opts = Ok doc ->
  exists items1 items2 : list string,
    mapResult hotArticleItem first = Ok items1
    /\ mapResult hotArticleItem second = Ok items2
    /\ length items1 = length first
    /\ length items2 = length second
    /\ doc = rssDocument (channelTitle opts) (channelLink opts)
               (channelDescription opts) now (items1 ++ items2)%list.
Proof.
  rewrite buildRss_eq, mapResult_app. intros Hdoc.
  destruct (mapResult hotArticleItem first) as [items1|e] eqn:H1; [|discriminate].
  destruct (mapResult hotArticleItem second) as [items2|e] eqn:H2; [|discriminate].
  cbn [mbind Result_bind] in Hdoc. injection Hdoc as <-.
  exists items1, items2.
  repeat split; eauto using mapResult_length.
Qed.

Lemma feed_items_follow_records_witness :
  exists items1 items2 : list string,
    mapResult (hotArticleItem (H := referenceHost)) [sampleRecord] = Ok items1
    /\ mapResult (hotArticleItem (H := referenceHost)) [markupRecord; ampersandRecord]
       = Ok items2
    /\ length items1 = length [sampleRecord]
    /\ length items2 = length [markupRecord; ampersandRecord]
    /\ match buildRssFromHotArticles (H := referenceHost) sampleDate
               ([sampleRecord] ++ [markupRecord; ampersandRecord])%list noOpts with
       | Ok doc => doc
       | Throw _ => ""
       end
       = rssDocument (channelTitle noOpts) (channelLink noOpts)
           (channelDescription noOpts) sampleDate (items1 ++ items2)%list.
Proof.
  apply (feed_items_follow_records (H := referenceHost) sampleDate
           [sampleRecord] [markupRecord; ampersandRecord] noOpts).
  vm_compute. reflexivity.
Defined.

(** X4.  The build date is the only part of the document that depends on
    the time of the run: either the records cannot be rendered, whatever
    the time, or the document is the same text before and the same text
    after the date for every time. *)
Theorem feed_differs_only_in_build_date `{Host} (records : list JsVal) (opts : Opts) :
  (exists e, forall now, buildRssFromHotArticles now records opts = Throw e)
  \/ (exists before after,
        forall now,
          buildRssFromHotArticles now records opts = Ok (before +:+ now +:+ after)).
Proof.
  destruct (mapResult hotArticleItem records) as [texts|e] eqn:Hm.
  - right.
    exists ("<?xml version=" +:+ dq +:+ "1.0" +:+ dq +:+ " encoding=" +:+ dq
              +:+ "UTF-8" +:+ dq +:+ "?>" +:+ nl
            +:+ "<rss version=" +:+ dq +:+ "2.0" +:+ dq +:+ ">" +:+ nl
            +:+ "  <channel>" +:+ nl
            +:+ "    <title>" +:+ channelTitle opts +:+ "</title>" +:+ nl
            +:+ "    <link>" +:+ channelLink opts +:+ "</link>" +:+ nl
            +:+ "    <description>" +:+ channelDescription opts +:+ "</description>" +:+ nl
            +:+ "    <lastBuildDate>"),
           ("</lastBuildDate>" +:+ nl +:+ String.concat nl texts +:+ nl
            +:+ "  </channel>" +:+ nl +:+ "</rss>" +:+ nl).
    intros now. rewrite buildRss_eq, Hm. cbn [mbind Result_bind]. f_equal.
    unfold rssDocument. now rewrite !append_assoc.
  - left. exists e. intros now. now rewrite buildRss_eq, Hm.
Qed.

(** X5.  The builder fails only on a record with a field that cannot be
    converted to text, and then with the TypeError of that conversion:
    records whose converted fields are printable always yield a
    document. *)
Theorem feed_fails_only_on_unprintable `{Host}
    (now : string) (records : list JsVal) (opts : Opts) :
  (forallb recordPrintable records = true ->
   exists doc, buildRssFromHotArticles now records opts = Ok doc)
  /\ (forall e,
        buildRssFromHotArticles now records opts = Throw e ->
        e = TypeError "Cannot convert object to primitive value"
        /\ exists a, In a records /\ recordPrintable a = false).
Proof.
  split; [apply buildRss_total|].
  intros e. rewrite buildRss_eq.
  destruct (mapResult hotArticleItem records) as [texts|e'] eqn:Hm; [discriminate|].
  intros [= <-]. apply mapResult_Throw in Hm. destruct Hm as (a & Hin & Ha).
  unfold hotArticleItem in Ha.
  destruct (itemOf a) as [it|e''] eqn:Hit; [discriminate|]. injection Ha as <-.
  split; [now apply itemOf_Throw in Hit|].
  exists a. split; [exact Hin|].
  destruct (recordPrintable a) eqn:Hp; [|reflexivity].
  destruct (itemOf_total a Hp) as [it Hit']. congruence.
Qed.

(** The description text for each combination of the two flags and the
    author. *)
Definition descriptionOf (original video : bool) (author : string) : string :=
  match original, video, nonEmpty author with
  | true, true, true => "原创 | 视频 | 作者：" +:+ author
  | true, true, false => "原创 | 视频"
  | true, false, true => "原创 | 作者：" +:+ author
  | true, false, false => "原创"
  | false, true, true => "视频 | 作者：" +:+ author
  | false, true, false => "视频"
  | false, false, true => "作者：" +:+ author
  | false, false, false => ""
  end.

(** X6.  The optional parts of an item: the enclosure is present exactly
    when [pic_path] is truthy, the author element is self-closing
    exactly when the escaped user name is empty, which is when the user
    name's text is empty, and the description joins the markers of the
    truthy flags and the author, when there is one, with [ | ]. *)
Theorem item_optional_parts `{Host} (a : JsVal) (it : Item) :
  itemOf a = Ok it ->
  (enclosure it = "" <-> truthy (a ?. "pic_path") = false)
  /\ (authorTag it = "<author />" <-> author it = "")
  /\ (author it = "" <-> ToString (a ?. "user_info" ?. "username" ?? JStr "") = Ok "")
  /\ (author it <> "" -> authorTag it = "<author>" +:+ author it +:+ "</author>")
  /\ descText it = descriptionOf (truthy (a ?. "is_original"))
                     (truthy (a ?. "is_video_article")) (author it).
Proof.
  intros Hit. pose proof (itemOf_escaped a it Hit) as [_ _ _ Hau _ _].
  unfold itemOf in Hit.
  bind_inv Hit. bind_inv Hit. bind_inv Hit. bind_inv Hit. bind_inv Hit. bind_inv Hit.
  injection Hit as <-. cbn [enclosure authorTag author descText] in *.
  split; [|split; [|split; [|split]]].
  - unfold enclosureOf in Ha5. destruct (truthy (a ?. "pic_path")).
    + bind_inv Ha5. injection Ha5 as <-. split; discriminate.
    + injection Ha5 as <-. split; reflexivity.
  - unfold nonEmpty. destruct (String.eqb_spec a4 "") as [->|Hne]; cbn [negb].
    + split; reflexivity.
    + split; [|contradiction]. destruct a4; [contradiction | discriminate].
  - destruct Hau as (t & Ht & ->). rewrite Ht, escapeText_empty.
    split; [now intros -> | now intros [= ->]].
  - unfold nonEmpty. destruct (String.eqb_spec a4 "") as [->|Hne]; [contradiction|].
    reflexivity.
  - unfold descPartsOf, descriptionOf.
    destruct (truthy (a ?. "is_original")), (truthy (a ?. "is_video_article")),
      (nonEmpty a4); reflexivity.
Qed.

Lemma item_optional_parts_witness :
  exists it,
    itemOf (H := referenceHost) markupRecord = Ok it
    /\ (enclosure it = "" <-> truthy (markupRecord ?. "pic_path") = false)
    /\ (authorTag it = "<author />" <-> author it = "")
    /\ (author it = "" <->
        ToString (H := referenceHost)
          (markupRecord ?. "user_info" ?. "username" ?? JStr "") = Ok "")
    /\ (author it <> "" -> authorTag it = "<author>" +:+ author it +:+ "</author>")
    /\ descText it = descriptionOf (truthy (markupRecord ?. "is_original"))
                       (truthy (markupRecord ?. "is_video_article")) (author it).
Proof.
  eexists. split; [vm_compute; reflexivity|].
  apply (item_optional_parts (H := referenceHost) markupRecord).
  vm_compute. reflexivity.
Defined.

(** X7.  The guid of an item is a permalink exactly when the text of the
    record's [url] is not empty.  Read back once, the guid is then the
    text of the link element; otherwise it is the text of [aid], which
    is empty when the record has no [aid] either. *)
Theorem guid_permalink_rule `{Host} (a : JsVal) (it : Item) :
  itemOf a = Ok it ->
  exists url,
    ToString (a ?. "url" ?? JStr "") = Ok url
    /\ unescapeText (itemLink it) = url
    /\ (isPermaLink it = "true" <-> url <> "")
    /\ (isPermaLink it = "false" <-> url = "")
    /\ (url <> "" -> unescapeText (guid it) = itemLink it)
    /\ (url = "" ->
        exists aid, ToString (a ?. "aid" ?? JStr "") = Ok aid
                    /\ unescapeText (guid it) = aid)
    /\ xmlSafe (guid it) = true.
Proof.
  intros Hit. destruct (guid_of_record a it Hit) as (url & Hurl & Hlink & Hne & He).
  exists url. split; [exact Hurl|]. split; [now rewrite Hlink, unescapeText_escapeText|].
  destruct (String.eqb_spec url "") as [Hu|Hu].
  - destruct (He Hu) as (Hp & aid & Haid & Hg). rewrite Hp.
    repeat split; try discriminate; try congruence.
    + exists aid. now rewrite Hg, unescapeText_escapeText.
    + rewrite Hg. apply xmlSafe_escapeText.
  - destruct (Hne Hu) as (Hp & Hg). rewrite Hp.
    repeat split; try discriminate; try congruence.
    + intros _. now rewrite Hg, Hlink, unescapeText_escapeText.
    + rewrite Hg. apply xmlSafe_escapeText.
Qed.

Lemma guid_permalink_rule_witness :
  exists it,
    itemOf (H := referenceHost) (JObj {["aid" := JNum (Finite 42)]}) = Ok it
    /\ exists url,
         ToString (H := referenceHost)
           (JObj {["aid" := JNum (Finite 42)]} ?. "url" ?? JStr "") = Ok url
         /\ unescapeText (itemLink it) = url
         /\ (isPermaLink it = "true" <-> url <> "")
         /\ (isPermaLink it = "false" <-> url = "")
         /\ (url <> "" -> unescapeText (guid it) = itemLink it)
         /\ (url = "" ->
             exists aid,
               ToString (H := referenceHost)
                 (JObj {["aid" := JNum (Finite 42)]} ?. "aid" ?? JStr "") = Ok aid
               /\ unescapeText (guid it) = aid)
         /\ xmlSafe (guid it) = true.
Proof.
  eexists. split; [vm_compute; reflexivity|].
  apply (guid_permalink_rule (H := referenceHost) (JObj {["aid" := JNum (Finite 42)]})).
  vm_compute. reflexivity.
Defined.

(** ** The trace of a retried operation *)

#[local] Open Scope Q_scope.

(** The waits of a run, in the order they happen: the [j]-th one (from
    0) is the backoff delay for attempt [attempt + j], computed from the
    [j]-th draw after the first [d0] draws. *)
Definition waitsFrom (cfg : Config) (random : nat -> Q) (d0 : nat) (attempt : Z)
    (count : nat) : list Q :=
  map (fun j => backoffDelayMs cfg (random (d0 + j)%nat) (attempt + Z.of_nat j))
      (seq 0 count).

Lemma waitsFrom_S cfg random d0 attempt count :
  waitsFrom cfg random d0 attempt (S count)
  = backoffDelayMs cfg (random d0) attempt
    :: waitsFrom cfg random (S d0) (attempt + 1) count.
Proof.
  unfold waitsFrom. cbn [seq map]. rewrite Nat.add_0_r, Z.add_0_r. f_equal.
  rewrite <- seq_shift, map_map. apply map_ext. intros j.
  f_equal; [f_equal; lia | lia].
Qed.

Section RetryTrace.
Context {A : Type}.
Variable cfg : Config.
Variable random : nat -> Q.
Variable fn : nat -> Result A.
Variable opLabel : string.
Variable attempts : Q.

(** How a run of the loop ended, after [count] waits. *)
Definition loopEnded (attempt : Z) (lastError : Error) (w : World) (count : nat)
    (r : Result A) (w' : World) : Prop :=
  match r with
  | Ok v =>
      invocations w' = (invocations w + count + 1)%nat
      /\ fn (invocations w + count) = Ok v
  | Throw e =>
      (invocations w' = (invocations w + count + 1)%nat
       /\ fn (invocations w + count) = Throw e
       /\ attempts <= inject_Z (attempt + Z.of_nat count))
      \/ (invocations w' = (invocations w + count)%nat
          /\ attempts < inject_Z (attempt + Z.of_nat count)
          /\ match count with
             | O => e = lastError
             | S c => fn (invocations w + c) = Throw e
             end)
  end.

Lemma retryLoop_trace (fuel : nat) :
  forall (attempt : Z) (lastError : Error) (w : World) (r : Result A) (w' : World),
    retryLoop cfg random fn fuel opLabel attempts attempt lastError w = Some (r, w') ->
    exists count : nat,
      sleeps w' = (rev (waitsFrom cfg random (draws w) attempt count) ++ sleeps w)%list
      /\ draws w' = (draws w + count)%nat
      /\ (exists ws, warnings w' = (ws ++ warnings w)%list
                     /\ map warnDelay ws
                        = rev (waitsFrom cfg random (draws w) attempt count)
                     /\ map warnAttempt ws
                        = rev (map (fun j => (attempt + Z.of_nat j)%Z) (seq 0 count)))
      /\ (forall j, (j < count)%nat ->
            (exists e, fn (invocations w + j) = Throw e)
            /\ inject_Z (attempt + Z.of_nat j) < attempts)
      /\ loopEnded attempt lastError w count r w'.
Proof.
  assert (Hzero : forall attempt lastError w r w',
             sleeps w' = sleeps w -> draws w' = draws w -> warnings w' = warnings w ->
             loopEnded attempt lastError w 0 r w' ->
             exists count : nat,
               sleeps w' = (rev (waitsFrom cfg random (draws w) attempt count) ++ sleeps w)%list
               /\ draws w' = (draws w + count)%nat
               /\ (exists ws, warnings w' = (ws ++ warnings w)%list
                     /\ map warnDelay ws
                        = rev (waitsFrom cfg random (draws w) attempt count)
                     /\ map warnAttempt ws
                        = rev (map (fun j => (attempt + Z.of_nat j)%Z) (seq 0 count)))
               /\ (forall j, (j < count)%nat ->
                     (exists e, fn (invocations w + j) = Throw e)
                     /\ inject_Z (attempt + Z.of_nat j) < attempts)
               /\ loopEnded attempt lastError w count r w').
  { intros attempt lastError w r w' Hs Hd Hw Hend. exists 0%nat.
    split; [exact Hs|]. split; [lia|]. split; [now exists []|].
    split; [intros j Hj; lia | exact Hend]. }
  induction fuel as [|fuel IH]; intros attempt lastError w r w' Hrun; [discriminate|].
  cbn [retryLoop] in Hrun.
  destruct (Qle_bool (inject_Z attempt) attempts) eqn:Hin.
  - unfold invoke in Hrun. destruct (fn (invocations w)) as [v|err] eqn:Hfn.
    + injection Hrun as <- <-. apply Hzero; try reflexivity.
      cbn. rewrite Nat.add_0_r. split; [lia | exact Hfn].
    + destruct (Qle_bool attempts (inject_Z attempt)) eqn:Hlast.
      * injection Hrun as <- <-. apply Hzero; try reflexivity.
        cbn. rewrite Nat.add_0_r, Z.add_0_r. left.
        split; [lia|]. split; [exact Hfn | now apply Qle_bool_iff].
      * cbn [drawDelay] in Hrun. apply IH in Hrun.
        destruct Hrun as (count & Hs & Hd & (ws & Hw & Hwd & Hwa) & Hj & Hend).
        cbn [warnAndSleep sleeps draws warnings invocations warnDelay] in *.
        exists (S count). rewrite waitsFrom_S. cbn [rev].
        split; [rewrite Hs, <- app_assoc; reflexivity|].
        split; [lia|]. split; [|split].
        -- eexists (ws ++ [_])%list. rewrite <- app_assoc. split; [exact Hw|].
           rewrite !map_app. cbn [map warnDelay warnAttempt]. split.
           ++ now rewrite Hwd.
           ++ rewrite Hwa. cbn [seq map rev]. rewrite Z.add_0_r. f_equal.
              rewrite <- seq_shift, map_map. f_equal. apply map_ext. intros j. lia.
        -- intros [|j] Hlt.
           ++ rewrite Nat.add_0_r, Z.add_0_r. split; [now exists err|].
              apply Qnot_le_lt. intros Hle. apply Qle_bool_iff in Hle. congruence.
           ++ destruct (Hj j) as [[e He] Hlt']; [lia|]. split.
              ** exists e. now replace (invocations w + S j)%nat
                   with (S (invocations w) + j)%nat by lia.
              ** now replace (attempt + Z.of_nat (S j))%Z
                   with (attempt + 1 + Z.of_nat j)%Z by lia.
        -- unfold loopEnded in Hend |- *. cbn [warnAndSleep invocations] in Hend.
           replace (attempt + Z.of_nat (S count))%Z
             with (attempt + 1 + Z.of_nat count)%Z by lia.
           replace (invocations w + S count)%nat
             with (S (invocations w) + count)%nat by lia.
           destruct r as [v|e].
           ++ destruct Hend as [Hi Hv]. split; [lia | exact Hv].
           ++ destruct Hend as [(Hi & He & Hle) | (Hi & Hlt & He)].
              ** left. split; [lia|]. split; [exact He | exact Hle].
              ** right. split; [lia|]. split; [exact Hlt|].
                 destruct count as [|c].
                 --- subst e. now rewrite Nat.add_0_r.
                 --- now replace (invocations w + S c)%nat
                       with (S (invocations w) + c)%nat by lia.
  - injection Hrun as <- <-. apply Hzero; try reflexivity.
    cbn. rewrite Nat.add_0_r, Z.add_0_r. right.
    split; [lia|]. split; [|reflexivity].
    apply Qnot_le_lt. intros Hle. apply Qle_bool_iff in Hle. congruence.
Qed.
End RetryTrace.



(** X9.  The wrapper waits between consecutive attempts and only there.
    The waits, in order, are the backoff delays for attempts 1, 2, ...,
    each computed from a fresh random draw; each wait is announced by
    one warning that carries the attempt number and the delay.  After a
    success, and for an integer ceiling, the number of waits is one less
    than the number of invocations; only for a ceiling that is not an
    integer does the wrapper wait once more after its last attempt
    before it gives up. *)
Theorem retry_waits_between_attempts {A : Type}
    (cfg : Config) (random : nat -> Q) (fn : nat -> Result A)
    (maxAttempts : option Q) (label : option string) (w : World)
    (r : Result A) (w' : World) :
  withRetry cfg random fn maxAttempts label w = Some (r, w') ->
  let made := (invocations w' - invocations w)%nat in
  exists count : nat,
    sleeps w' = (rev (waitsFrom cfg random (draws w) 1 count) ++ sleeps w)%list
    /\ draws w' = (draws w + count)%nat
    /\ (exists ws, warnings w' = (ws ++ warnings w)%list
                   /\ map warnDelay ws = rev (waitsFrom cfg random (draws w) 1 count)
                   /\ map warnAttempt ws
                      = rev (map (fun j => (1 + Z.of_nat j)%Z) (seq 0 count)))
    /\ ((count + 1)%nat = made \/ (count = made /\ exists e, r = Throw e))
    /\ ((exists v, r = Ok v) -> (count + 1)%nat = made)
    /\ (effectiveAttempts maxAttempts == inject_Z (Qfloor (effectiveAttempts maxAttempts)) ->
        (count + 1)%nat = made).
Proof.
  intros Hrun made. unfold withRetry in Hrun. apply retryLoop_trace in Hrun.
  destruct Hrun as (count & Hs & Hd & Hw & Hj & Hend).
  exists count. split; [exact Hs|]. split; [exact Hd|]. split; [exact Hw|].
  unfold loopEnded in Hend. unfold made. destruct r as [v|e].
  - destruct Hend as [Hi _]. repeat split; intros; lia.
  - destruct Hend as [(Hi & _ & _) | (Hi & Hlt & He)].
    + repeat split; intros; lia.
    + split; [right; split; [lia | now exists e]|].
      split; [intros [v Hv]; discriminate|].
      intros Hint. exfalso. rewrite Hint in Hlt. rewrite <- Zlt_Qlt in Hlt.
      destruct count as [|c].
      * pose proof (effectiveAttempts_ge_1 maxAttempts). lia.
      * destruct (Hj c) as [_ Hc]; [lia|]. rewrite Hint in Hc.
        rewrite <- Zlt_Qlt in Hc. lia.
Qed.

Lemma retry_waits_between_attempts_witness :
  exists r w',
    withRetry defaultConfig (fun _ => 1 # 2) flakyFetch (Some (5 # 2)) None initialWorld
    = Some (r, w')
    /\ exists count : nat,
         sleeps w'
         = (rev (waitsFrom defaultConfig (fun _ => 1 # 2) (draws initialWorld) 1 count)
              ++ sleeps initialWorld)%list
         /\ draws w' = (draws initialWorld + count)%nat
         /\ (exists ws, warnings w' = (ws ++ warnings initialWorld)%list
                        /\ map warnDelay ws
                           = rev (waitsFrom defaultConfig (fun _ => 1 # 2)
                                    (draws initialWorld) 1 count)
                        /\ map warnAttempt ws
                           = rev (map (fun j => (1 + Z.of_nat j)%Z) (seq 0 count)))
         /\ ((count + 1)%nat = (invocations w' - invocations initialWorld)%nat
             \/ (count = (invocations w' - invocations initialWorld)%nat
                 /\ exists e, r = Throw e))
         /\ ((exists v, r = Ok v) ->
             (count + 1)%nat = (invocations w' - invocations initialWorld)%nat)
         /\ (effectiveAttempts (Some (5 # 2))
             == inject_Z (Qfloor (effectiveAttempts (Some (5 # 2)))) ->
             (count + 1)%nat = (invocations w' - invocations initialWorld)%nat).
Proof.
  do 2 eexists. split; [vm_compute; reflexivity|].
  apply (retry_waits_between_attempts defaultConfig (fun _ => 1 # 2) flakyFetch
           (Some (5 # 2)) None initialWorld).
  vm_compute. reflexivity.
Defined.

(** With a ceiling of 2.5 and an operation that fails twice, the wrapper
    makes two attempts and waits twice, the second time after its last
    attempt. *)
Example retry_fractional_ceiling_waits_twice :
  exists e w',
    withRetry defaultConfig (fun _ => 1 # 2) flakyFetch (Some (5 # 2)) None initialWorld
    = Some (Throw e, w')
    /\ invocations w' = 2%nat
    /\ sleeps w' = [1000; 500].
Proof. do 2 eexists. split; [vm_compute; reflexivity | split; reflexivity]. Qed.

(** ** clamp and the backoff delay *)







#[local] Close Scope Q_scope.

(** ** Overrides from the environment *)

Lemma trimStart_WsText m :
  WsText m -> forall fuel, (String.length m <= fuel)%nat -> trimStartFuel fuel m = "".
Proof.
  induction 1 as [|w r Hw Hr IH]; intros fuel Hfuel.
  - now destruct fuel.
  - rewrite append_length in Hfuel. pose proof (whiteSpace_length w Hw).
    destruct fuel as [|fuel]; [lia|]. cbn [trimStartFuel].
    rewrite stripWs_app by exact Hw. apply IH. lia.
Qed.

(** X12.  A value that is not empty and consists of white space only
    does not fall back to the default: the parameter is 0. *)
Theorem envNumber_white_space_only
    (env : gmap string string) (name raw : string) (fallback : Q) :
  env !! name = Some raw ->
  raw <> "" ->
  WsText raw ->
  envNumber env name fallback = 0%Q.
Proof.
  intros Hraw Hne Hws. unfold envNumber. rewrite Hraw.
  destruct (String.eqb_spec raw "") as [He|_]; [contradiction|].
  unfold Number, trimStart. now rewrite (trimStart_WsText raw Hws).
Qed.

Lemma envNumber_white_space_only_witness :
  envNumber {["FETCH_RETRY_MAX" := "  "]} "FETCH_RETRY_MAX" 3 = 0%Q.
Proof.
  apply (envNumber_white_space_only {["FETCH_RETRY_MAX" := "  "]}
           "FETCH_RETRY_MAX" "  " 3).
  - reflexivity.
  - discriminate.
  - apply (WsText_cons " " " "); [vm_compute; tauto|].
    apply (WsText_cons " " ""); [vm_compute; tauto | constructor].
Defined.

Lemma finiteOrInfinity_large q fallback :
  (inject_Z (2 ^ 1024 - 2 ^ 970) <= Qabs q)%Q ->
  finiteOr (finiteOrInfinity q) fallback = fallback.
Proof.
  intros Hq. unfold finiteOrInfinity, roundsToInfinity.
  rewrite (proj2 (Qle_bool_iff _ _) Hq). now destruct (Qle_bool 0 q).
Qed.

(** [Number] reads a run of decimal digits that denotes an integer too
    large for a double, with or without a minus sign, as an infinity. *)
Lemma Number_digits_large s (v : Z) (k : nat) fallback :
  allDigits s = true ->
  takeDigits 10 0 0 s = (v, k, "") -> (1 <= k)%nat ->
  (2 ^ 1024 - 2 ^ 970 <= v)%Z ->
  finiteOr (Number s) fallback = fallback
  /\ finiteOr (Number ("-" +:+ s)) fallback = fallback.
Proof.
  intros Hd Ht Hk Hv.
  destruct s as [|c r]; [cbn in Ht; injection Ht as _ <-; lia|].
  pose proof Hd as Hd'. cbn [allDigits] in Hd'. apply andb_prop in Hd' as [Hc Hr].
  set (q := (inject_Z v * Qpower 10 (0 - Z.of_nat 0))%Q).
  assert (Hq : Qeq q (inject_Z v)).
  { unfold q. change (Qpower 10 (0 - Z.of_nat 0)) with 1%Q. apply Qmult_1_r. }
  assert (Habs : (inject_Z (2 ^ 1024 - 2 ^ 970) <= Qabs q)%Q).
  { rewrite Hq, Qabs_pos.
    - rewrite <- Zle_Qle. lia.
    - change 0%Q with (inject_Z 0). rewrite <- Zle_Qle. lia. }
  split.
  - unfold Number. rewrite trimStart_plain by (now apply stripWs_digit).
    rewrite trimEnd_digits by exact Hd.
    change (String.eqb (String c r) "") with false. cbn iota.
    rewrite nonDecimalInteger_digits by exact Hd.
    rewrite sign_of_digit by exact Hc. cbn iota.
    rewrite (not_Infinity_digit c r Hc).
    rewrite (unsignedDecimal_digits _ _ _ Ht Hk). fold q.
    now apply finiteOrInfinity_large.
  - unfold Number. cbn [append]. rewrite trimStart_plain by reflexivity.
    assert (Hend : trimEnd (String "-" (String c r)) = String "-" (String c r)).
    { change (trimEnd (String "-" (String c r)))
        with (if allWs (String "-" (String c r)) then EmptyString
              else String "-" (trimEnd (String c r))).
      unfold allWs. rewrite trimStart_plain by reflexivity.
      change (String.eqb (String "-" (String c r)) "") with false.
      cbn iota. now rewrite trimEnd_digits. }
    rewrite Hend. change (String.eqb (String "-" (String c r)) "") with false.
    cbn iota.
    change (nonDecimalInteger (String "-" (String c r))) with (@None Q). cbn iota.
    rewrite (not_Infinity_digit c r Hc).
    rewrite (unsignedDecimal_digits _ _ _ Ht Hk). fold q.
    apply finiteOrInfinity_large. now rewrite Qabs_opp.
Qed.

(** X13.  A value that is the decimal numeral of an integer too large
    in magnitude for a double (at least [2^1024 - 2^970]) converts to an
    infinity, which is not finite: the parameter is the default. *)
Theorem envNumber_rejects_overflow
    (env : gmap string string) (name : string) (fallback : Q) (z : Z) :
  env !! name = Some (pretty z) ->
  (2 ^ 1024 - 2 ^ 970 <= Z.abs z)%Z ->
  envNumber env name fallback = fallback.
Proof.
  intros Hraw Hz. unfold envNumber. rewrite Hraw.
  destruct (String.eqb (pretty z) ""); [reflexivity|].
  destruct z as [|p|p]; [cbn in Hz; lia| |].
  - destruct (takeDigits_pretty (N.pos p) "") as (k & Hk & Ht).
    specialize (Ht 0%Z 0%nat). cbn [takeDigits] in Ht.
    apply (Number_digits_large (pretty_N_go (N.pos p) "") (Z.pos p) k).
    + now apply allDigits_pretty.
    + exact Ht.
    + apply Hk. lia.
    + lia.
  - destruct (takeDigits_pretty (N.pos p) "") as (k & Hk & Ht).
    specialize (Ht 0%Z 0%nat). cbn [takeDigits] in Ht.
    apply (Number_digits_large (pretty_N_go (N.pos p) "") (Z.pos p) k).
    + now apply allDigits_pretty.
    + exact Ht.
    + apply Hk. lia.
    + lia.
Qed.

Lemma envNumber_rejects_overflow_witness :
  envNumber {["FETCH_RETRY_BASE_DELAY_MS" := pretty (- 2 ^ 1024)%Z]}
    "FETCH_RETRY_BASE_DELAY_MS" 500
  = 500%Q.
Proof.
  apply (envNumber_rejects_overflow
           {["FETCH_RETRY_BASE_DELAY_MS" := pretty (- 2 ^ 1024)%Z]}
           "FETCH_RETRY_BASE_DELAY_MS" 500 (- 2 ^ 1024)).
  - reflexivity.
  - vm_compute. discriminate.
Defined.

(** ** What extraction returns *)

Lemma seqMatches_cons_inv a atoms m :
  seqMatches (a :: atoms) m ->
  exists m1 m2, m = m1 +:+ m2 /\ atomMatches a m1 /\ seqMatches atoms m2.
Proof. inversion 1; subst. eauto. Qed.

Lemma seqMatches_nil_inv m : seqMatches [] m -> m = "".
Proof. now inversion 1. Qed.

(** Take a hypothesis [seqMatches (a :: atoms) m] apart, atom by atom. *)
Ltac seq_inv H :=
  repeat match type of H with
         | seqMatches (_ :: _) _ =>
             let m1 := fresh "m" in
             let Ha := fresh "Ha" in
             apply seqMatches_cons_inv in H;
             destruct H as (m1 & ? & -> & Ha & H); cbn [atomMatches] in Ha
         | seqMatches [] _ => apply seqMatches_nil_inv in H; subst
         end.

(** The texts the part of the pattern before the group matches. *)
Lemma reBefore_shape b :
  seqMatches reBefore b ->
  exists w1 w2, WsText w1 /\ WsText w2 /\ b = "window.__NUXT__" +:+ w1 +:+ "=" +:+ w2.
Proof.
  unfold reBefore. intros Hb. seq_inv Hb. subst. rewrite append_empty_r.
  do 2 eexists. split; [|split]; [| |reflexivity]; assumption.
Qed.

(** The texts the group matches. *)
Lemma reGroup_shape g :
  seqMatches reGroup g ->
  exists w1 w2 params w3 body w4 args w5,
    WsText w1 /\ WsText w2 /\ WsText w3 /\ WsText w4 /\ WsText w5
    /\ g = "(" +:+ w1 +:+ "function" +:+ w2 +:+ "(" +:+ params +:+ ")" +:+ w3
           +:+ "{" +:+ body +:+ "}" +:+ w4 +:+ "(" +:+ args +:+ ")" +:+ w5 +:+ ")".
Proof.
  unfold reGroup. intros Hg. seq_inv Hg. subst. rewrite append_empty_r.
  do 8 eexists. split; [|split; [|split; [|split; [|split]]]];
    [| | | | |reflexivity]; assumption.
Qed.

(** X14.  Extraction succeeds exactly when some part of the text matches
    the pattern; its only failure is the pattern-not-found error, and a
    text in which [window.__NUXT__] does not occur always fails so. *)
Theorem extraction_iff_pattern (html : string) :
  ((exists g, extractNuxtExpression html = Ok g) <-> containsPattern html)
  /\ (forall e, extractNuxtExpression html = Throw e ->
                e = PatternNotFound /\ ~ containsPattern html)
  /\ ((forall a b, html <> a +:+ "window.__NUXT__" +:+ b) ->
      extractNuxtExpression html = Throw PatternNotFound).
Proof.
  unfold extractNuxtExpression. rewrite <- exec_containsPattern.
  destruct (exec html) as [g|] eqn:Hg.
  - split; [split; eauto|]. split; [discriminate|].
    intros Hnone. exfalso. apply exec_sound in Hg.
    destruct Hg as (pre & s & -> & Hs). apply matchHere_sound in Hs.
    destruct Hs as (b & a & r & -> & Hb & _). apply reBefore_shape in Hb.
    destruct Hb as (w1 & w2 & _ & _ & ->).
    apply (Hnone pre (w1 +:+ "=" +:+ w2 +:+ g +:+ a +:+ r)).
    now rewrite !append_assoc.
  - split.
    { split; intros [g Hg']; discriminate Hg'. }
    split; [|reflexivity]. intros e [= <-]. split; [reflexivity|].
    rewrite <- exec_containsPattern. intros [g Hg']. congruence.
Qed.

(** X15.  What extraction returns is a part of the text: it stands
    right after [window.__NUXT__], an equals sign and the white space
    around it, and it has the form of a function expression in
    parentheses that is called at once, [(function(...){...}(...))],
    with white space allowed between its tokens. *)
Theorem extracted_expression_shape (html g : string) :
  extractNuxtExpression html = Ok g ->
  exists pre v1 v2 rest w1 w2 params w3 body w4 args w5,
    html = pre +:+ "window.__NUXT__" +:+ v1 +:+ "=" +:+ v2 +:+ g +:+ rest
    /\ WsText v1 /\ WsText v2
    /\ WsText w1 /\ WsText w2 /\ WsText w3 /\ WsText w4 /\ WsText w5
    /\ g = "(" +:+ w1 +:+ "function" +:+ w2 +:+ "(" +:+ params +:+ ")" +:+ w3
           +:+ "{" +:+ body +:+ "}" +:+ w4 +:+ "(" +:+ args +:+ ")" +:+ w5 +:+ ")".
Proof.
  unfold extractNuxtExpression.
  destruct (exec html) as [g'|] eqn:Hg; [|discriminate]. intros [= ->].
  apply exec_sound in Hg. destruct Hg as (pre & s & -> & Hs).
  apply matchHere_sound in Hs. destruct Hs as (b & a & r & -> & Hb & Hg & _).
  apply reBefore_shape in Hb. destruct Hb as (v1 & v2 & Hv1 & Hv2 & ->).
  destruct (reGroup_shape g Hg)
    as (w1 & w2 & params & w3 & body & w4 & args & w5 & H1 & H2 & H3 & H4 & H5 & Hshape).
  exists pre, v1, v2, (a +:+ r), w1, w2, params, w3, body, w4, args, w5.
  split; [now rewrite !append_assoc|]. tauto.
Qed.

Lemma extracted_expression_shape_witness :
  exists pre v1 v2 rest w1 w2 params w3 body w4 args w5,
    "<script>" +:+ nuxtAssignment +:+ "</script>"
    = pre +:+ "window.__NUXT__" +:+ v1 +:+ "=" +:+ v2 +:+ nuxtExpression +:+ rest
    /\ WsText v1 /\ WsText v2
    /\ WsText w1 /\ WsText w2 /\ WsText w3 /\ WsText w4 /\ WsText w5
    /\ nuxtExpression
       = "(" +:+ w1 +:+ "function" +:+ w2 +:+ "(" +:+ params +:+ ")" +:+ w3
         +:+ "{" +:+ body +:+ "}" +:+ w4 +:+ "(" +:+ args +:+ ")" +:+ w5 +:+ ")".
Proof.
  apply (extracted_expression_shape ("<script>" +:+ nuxtAssignment +:+ "</script>")).
  vm_compute. reflexivity.
Defined.

Lemma exec_leftmost html g :
  exec html = Some g ->
  exists pre s,
    html = pre +:+ s /\ matchHere s = Some g
    /\ forall p1 p2, pre = p1 +:+ p2 -> p2 <> "" -> matchHere (p2 +:+ s) = None.
Proof.
  induction html as [|c html IH]; cbn [exec].
  - destruct (matchHere "") as [y|] eqn:Hm; [|discriminate].
    intros [= <-]. exists "", "". repeat split; [exact Hm|].
    intros [|] [|] Hp Hne; try discriminate; contradiction.
  - destruct (matchHere (String c html)) as [y|] eqn:Hm.
    + intros [= <-]. exists "", (String c html). repeat split; [exact Hm|].
      intros [|] [|] Hp Hne; try discriminate; contradiction.
    + intros Hs. destruct (IH Hs) as (pre & s & -> & Hs' & Hleft).
      exists (String c pre), s. repeat split; [exact Hs'|].
      intros [|c1 p1] p2 Hp Hne.
      * cbn [append] in Hp. subst p2. exact Hm.
      * cbn [append] in Hp. injection Hp as _ Hp. now apply (Hleft p1 p2).
Qed.

(** X16.  Extraction returns the leftmost match: the text it returns is
    the group of a match that starts at some position, and no part of
    the text that starts before that position matches the pattern. *)
Theorem extraction_is_leftmost (html g : string) :
  extractNuxtExpression html = Ok g ->
  exists pre b a rest,
    html = pre +:+ b +:+ g +:+ a +:+ rest
    /\ seqMatches nuxtPattern (b +:+ g +:+ a)
    /\ forall p1 m r,
         html = p1 +:+ m +:+ r ->
         seqMatches nuxtPattern m ->
         (String.length pre <= String.length p1)%nat.
Proof.
  unfold extractNuxtExpression.
  destruct (exec html) as [g'|] eqn:Hg; [|discriminate]. intros [= ->].
  apply exec_leftmost in Hg. destruct Hg as (pre & s & -> & Hs & Hleft).
  pose proof (matchHere_sound s g Hs) as (b & a & r & -> & Hb & Hg & Ha).
  exists pre, b, a, r. split; [reflexivity|]. split.
  { unfold nuxtPattern. auto using seqMatches_app. }
  intros p1 m r' Heq Hm.
  destruct (Nat.le_gt_cases (String.length pre) (String.length p1)) as [Hle|Hgt];
    [exact Hle|]. exfalso.
  assert (Hsplit : forall (p1 pre x y : string),
             p1 +:+ x = pre +:+ y -> (String.length p1 < String.length pre)%nat ->
             exists p2, pre = p1 +:+ p2 /\ p2 <> "" /\ x = p2 +:+ y).
  { clear. induction p1 as [|c p1 IH]; intros pre x y Heq Hlt.
    - exists pre. destruct pre; [simpl in Hlt; lia|]. now repeat split.
    - destruct pre as [|c' pre]; [simpl in Hlt; lia|].
      cbn [append] in Heq. injection Heq as -> Heq.
      destruct (IH pre x y Heq) as (p2 & -> & Hne & ->); [simpl in Hlt; lia|].
      now exists p2. }
  destruct (Hsplit p1 pre (m +:+ r') (b +:+ g +:+ a +:+ r)) as (p2 & Hpre & Hne & Hx);
    [now symmetry | exact Hgt |].
  specialize (Hleft p1 p2 Hpre Hne). rewrite <- Hx in Hleft.
  destruct (matchHere_complete m r' Hm) as [y Hy]. congruence.
Qed.

Lemma extraction_is_leftmost_witness :
  exists pre b a rest,
    "window.__NUXT__=(function(" +:+ nuxtAssignment
    = pre +:+ b +:+ ("(function(window.__NUXT__ = " +:+ nuxtExpression) +:+ a +:+ rest
    /\ seqMatches nuxtPattern
         (b +:+ ("(function(window.__NUXT__ = " +:+ nuxtExpression) +:+ a)
    /\ forall p1 m r,
         "window.__NUXT__=(function(" +:+ nuxtAssignment = p1 +:+ m +:+ r ->
         seqMatches nuxtPattern m ->
         (String.length pre <= String.length p1)%nat.
Proof.
  apply (extraction_is_leftmost ("window.__NUXT__=(function(" +:+ nuxtAssignment)).
  vm_compute. reflexivity.
Defined.

(** ** The stages of the pipeline *)

Lemma buildRss_Throw `{Host} (now : string) (records : list JsVal) (opts : Opts)
    (e : Error) :
  buildRssFromHotArticles now records opts = Throw e ->
  e = TypeError "Cannot convert object to primitive value".
Proof.
  rewrite buildRss_eq.
  destruct (mapResult hotArticleItem records) as [texts|e'] eqn:Hm; [discriminate|].
  intros [= <-]. apply mapResult_Throw in Hm. destruct Hm as (a & _ & Ha).
  unfold hotArticleItem in Ha.
  destruct (itemOf a) as [it|e''] eqn:Hit; [discriminate|]. injection Ha as <-.
  now apply itemOf_Throw in Hit.
Qed.

Lemma extractNuxtExpression_Throw (html : string) (e : Error) :
  extractNuxtExpression html = Throw e -> e = PatternNotFound.
Proof. unfold extractNuxtExpression. destruct (exec html); congruence. Qed.

(** X17.  The pipeline after the fetch is all or nothing.  It yields a
    document exactly when extraction, the run of the script, the check
    of its result, the navigation to the list and the rendering all
    succeed, each on the result of the stage before; otherwise its
    error is the error of the first stage that fails, unchanged. *)
Theorem rss_of_html_stages `{Host} (now html : string) :
  (forall doc,
     rssOfHtml now html = Ok doc <->
     exists iifeExpr nuxt records,
       extractNuxtExpression html = Ok iifeExpr
       /\ runInContext (nuxtScript iifeExpr) = VmDone nuxt
       /\ truthy nuxt = true
       /\ locateHotArticles nuxt = Ok records
       /\ buildRssFromHotArticles now records feedOpts = Ok doc)
  /\ (forall e,
        rssOfHtml now html = Throw e ->
        (extractNuxtExpression html = Throw e /\ e = PatternNotFound)
        \/ (exists iifeExpr,
              extractNuxtExpression html = Ok iifeExpr
              /\ evalNuxtExpression iifeExpr = Throw e
              /\ ((exists reason, runInContext (nuxtScript iifeExpr) = VmThrows reason
                                  /\ e = SandboxError reason)
                  \/ (exists nuxt, runInContext (nuxtScript iifeExpr) = VmDone nuxt
                                   /\ truthy nuxt = false /\ e = NoNuxtResult)))
        \/ (exists iifeExpr nuxt,
              extractNuxtExpression html = Ok iifeExpr
              /\ evalNuxtExpression iifeExpr = Ok nuxt
              /\ locateHotArticles nuxt = Throw e /\ e = ListNotFound)
        \/ (exists iifeExpr nuxt records,
              extractNuxtExpression html = Ok iifeExpr
              /\ evalNuxtExpression iifeExpr = Ok nuxt
              /\ locateHotArticles nuxt = Ok records
              /\ buildRssFromHotArticles now records feedOpts = Throw e
              /\ e = TypeError "Cannot convert object to primitive value")).
Proof.
  unfold rssOfHtml. split.
  - intros doc. split.
    + intros Hdoc. bind_inv Hdoc. bind_inv Hdoc. bind_inv Hdoc.
      exists a, a0, a1. unfold evalNuxtExpression in Ha0.
      destruct (runInContext (nuxtScript a)) as [reason|nuxt]; [discriminate|].
      destruct (truthy nuxt) eqn:Ht; [|discriminate]. injection Ha0 as <-.
      auto.
    + intros (iifeExpr & nuxt & records & He & Hrun & Ht & Hl & Hb).
      rewrite He. cbn [mbind Result_bind]. unfold evalNuxtExpression.
      rewrite Hrun, Ht. cbn [mbind Result_bind]. now rewrite Hl.
  - intros e.
    destruct (extractNuxtExpression html) as [iifeExpr|e1] eqn:He;
      cbn [mbind Result_bind].
    + destruct (evalNuxtExpression iifeExpr) as [nuxt|e2] eqn:Hv;
        cbn [mbind Result_bind].
      * destruct (locateHotArticles nuxt) as [records|e3] eqn:Hl;
          cbn [mbind Result_bind].
        -- intros Hb. right. right. right. exists iifeExpr, nuxt, records.
           split; [first [assumption | reflexivity]|]. split; [first [assumption | reflexivity]|]. split; [first [assumption | reflexivity]|].
           split; [exact Hb|]. now apply buildRss_Throw in Hb.
        -- intros [= <-]. right. right. left. exists iifeExpr, nuxt.
           split; [first [assumption | reflexivity]|]. split; [first [assumption | reflexivity]|]. split; [exact Hl|].
           unfold locateHotArticles in Hl.
           destruct (match nuxt ?. "data" with
                     | JArr elems => firstElement elems
                     | _ => JUndefined
                     end ?. "hotArticlesList"); congruence.
      * intros [= <-]. right. left. exists iifeExpr.
        split; [first [assumption | reflexivity]|]. split; [first [assumption | reflexivity]|].
        unfold evalNuxtExpression in Hv.
        destruct (runInContext (nuxtScript iifeExpr)) as [reason|nuxt].
        -- left. exists reason. split; [reflexivity | congruence].
        -- right. exists nuxt. destruct (truthy nuxt); [discriminate|].
           split; [first [assumption | reflexivity]|]. split; [first [assumption | reflexivity]|]. congruence.
    + intros [= <-]. left. split; [first [assumption | reflexivity]|].
      now apply extractNuxtExpression_Throw in He.
Qed.

Section FetchThenPipeline.
Context `{Host}.
Variables (cfg : Config) (random : nat -> Q) (network : nat -> FetchOutcome).
Variables (now : string) (w : World).
Hypothesis fresh : invocations w = 0%nat.

Lemma generateRss_total :
  exists r w',
    generateRss cfg random network now w = Some (r, w')
    /\ (1 <= invocations w')%nat
    /\ (Z.of_nat (invocations w')
        <= Qfloor (effectiveAttempts (Some (retryMax cfg))))%Z.
Proof.
  pose proof (effectiveAttempts_ge_1 (Some (retryMax cfg))) as Hm.
  unfold generateRss, fetchHtmlWithRetry, withRetry.
  set (m := Qfloor (effectiveAttempts (Some (retryMax cfg)))) in *.
  destruct (retryLoop_total cfg random (fun n => fetchHtml (network n))
              (default "operation" (Some ("fetch " +:+ HOME_URL)))
              (effectiveAttempts (Some (retryMax cfg))) (Z.to_nat m)
              (S (Z.to_nat m)) 1%Z UndefinedThrown w) as (r & w' & Hrun & Hlo & Hhi).
  { fold m. lia. }
  { lia. }
  rewrite Hrun. do 2 eexists. split; [reflexivity|].
  destruct (Z.to_nat m) eqn:Hn; lia.
Qed.

Lemma generateRss_succeeds (k : nat) (html : string) :
  (forall i, (i < k)%nat -> exists e, fetchHtml (network i) = Throw e) ->
  fetchHtml (network k) = Ok html ->
  (Z.of_nat k + 1 <= Qfloor (effectiveAttempts (Some (retryMax cfg))))%Z ->
  exists w',
    generateRss cfg random network now w = Some (rssOfHtml now html, w')
    /\ invocations w' = (k + 1)%nat.
Proof.
  intros Hfail Hok Hle.
  pose proof (effectiveAttempts_ge_1 (Some (retryMax cfg))) as Hm.
  unfold generateRss, fetchHtmlWithRetry, withRetry.
  set (m := Qfloor (effectiveAttempts (Some (retryMax cfg)))) in *.
  destruct (retryLoop_succeeds cfg random (fun n => fetchHtml (network n))
              (default "operation" (Some ("fetch " +:+ HOME_URL)))
              (effectiveAttempts (Some (retryMax cfg))) html k
              (S (Z.to_nat m)) 1%Z UndefinedThrown w) as (w' & Hrun & Hinv).
  - intros i Hi. rewrite fresh. now apply Hfail.
  - now rewrite fresh.
  - fold m. lia.
  - lia.
  - rewrite Hrun. exists w'. split; [reflexivity | lia].
Qed.

Lemma generateRss_exhausts :
  (forall i, (Z.of_nat i < Qfloor (effectiveAttempts (Some (retryMax cfg))))%Z ->
             exists e, fetchHtml (network i) = Throw e) ->
  exists e w',
    fetchHtml (network (Z.to_nat (Qfloor (effectiveAttempts (Some (retryMax cfg)))) - 1))
    = Throw e
    /\ generateRss cfg random network now w = Some (Throw e, w')
    /\ Z.of_nat (invocations w') = Qfloor (effectiveAttempts (Some (retryMax cfg))).
Proof.
  intros Hfail.
  pose proof (effectiveAttempts_ge_1 (Some (retryMax cfg))) as Hm.
  unfold generateRss, fetchHtmlWithRetry, withRetry.
  set (m := Qfloor (effectiveAttempts (Some (retryMax cfg)))) in *.
  destruct (retryLoop_exhausts cfg random (fun n => fetchHtml (network n))
              (default "operation" (Some ("fetch " +:+ HOME_URL)))
              (effectiveAttempts (Some (retryMax cfg))) (Z.to_nat m - 1)
              (S (Z.to_nat m)) 1%Z UndefinedThrown w) as (e & w' & He & Hrun & Hinv).
  - intros i Hi. rewrite fresh. apply Hfail. lia.
  - fold m. lia.
  - lia.
  - rewrite fresh in He. rewrite Hrun. exists e, w'.
    split; [exact He|]. split; [reflexivity | lia].
Qed.

End FetchThenPipeline.

(** X18.  The run always ends, after at least one request and at most
    as many as the integer part of [max(1, FETCH_RETRY_MAX)].  If the
    page arrives at a request within that ceiling after earlier
    requests failed, the run is the pipeline on that page; if every
    request the ceiling allows fails, the run fails with the error of
    the last request, and nothing is extracted or evaluated. *)
Theorem generateRss_retries_fetch `{Host}
    (cfg : Config) (random : nat -> Q) (network : nat -> FetchOutcome)
    (now : string) (w : World) :
  invocations w = 0%nat ->
  let m := Qfloor (effectiveAttempts (Some (retryMax cfg))) in
  (exists r w',
     generateRss cfg random network now w = Some (r, w')
     /\ (1 <= invocations w')%nat
     /\ (Z.of_nat (invocations w') <= m)%Z)
  /\ (forall (k : nat) (html : string),
        (forall i, (i < k)%nat -> exists e, fetchHtml (network i) = Throw e) ->
        fetchHtml (network k) = Ok html ->
        (Z.of_nat k + 1 <= m)%Z ->
        exists w',
          generateRss cfg random network now w = Some (rssOfHtml now html, w')
          /\ invocations w' = (k + 1)%nat)
  /\ ((forall i, (Z.of_nat i < m)%Z -> exists e, fetchHtml (network i) = Throw e) ->
      exists e w',
        fetchHtml (network (Z.to_nat m - 1)) = Throw e
        /\ generateRss cfg random network now w = Some (Throw e, w')
        /\ Z.of_nat (invocations w') = m).
Proof.
  intros Hw m. split; [|split].
  - now apply generateRss_total.
  - intros k html. now apply generateRss_succeeds.
  - now apply generateRss_exhausts.
Qed.

Lemma generateRss_retries_fetch_witness :
  let network (n : nat) := FetchResponse 500 "Internal Server Error" "" in
  let m := Qfloor (effectiveAttempts (Some (retryMax defaultConfig))) in
  (exists r w',
     generateRss (H := referenceHost) defaultConfig (fun _ => 0%Q) network sampleDate
       initialWorld = Some (r, w')
     /\ (1 <= invocations w')%nat
     /\ (Z.of_nat (invocations w') <= m)%Z)
  /\ (forall (k : nat) (html : string),
        (forall i, (i < k)%nat -> exists e, fetchHtml (network i) = Throw e) ->
        fetchHtml (network k) = Ok html ->
        (Z.of_nat k + 1 <= m)%Z ->
        exists w',
          generateRss (H := referenceHost) defaultConfig (fun _ => 0%Q) network
            sampleDate initialWorld
          = Some (rssOfHtml (H := referenceHost) sampleDate html, w')
          /\ invocations w' = (k + 1)%nat)
  /\ ((forall i, (Z.of_nat i < m)%Z -> exists e, fetchHtml (network i) = Throw e) ->
      exists e w',
        fetchHtml (network (Z.to_nat m - 1)) = Throw e
        /\ generateRss (H := referenceHost) defaultConfig (fun _ => 0%Q) network
             sampleDate initialWorld = Some (Throw e, w')
        /\ Z.of_nat (invocations w') = m).
Proof.
  intros network.
  apply (generateRss_retries_fetch (H := referenceHost) defaultConfig (fun _ => 0%Q)
           network sampleDate initialWorld).
  reflexivity.
Defined.

(** With the default configuration and a server that always answers
    500, the run makes three requests and fails with the error of the
    third. *)
Example generateRss_gives_up_after_three :
  exists w',
    generateRss (H := referenceHost) defaultConfig (fun _ => 0%Q)
      (fun _ => FetchResponse 500 "Internal Server Error" "") sampleDate initialWorld
    = Some (Throw (HttpError 500 "Internal Server Error"), w')
    /\ invocations w' = 3%nat
    /\ message (HttpError 500 "Internal Server Error")
       = "拉取失败: 500 Internal Server Error".
Proof. eexists. split; [vm_compute; reflexivity | split; vm_compute; reflexivity]. Qed.

(** ** The command line and the run of [main] *)

Lemma startsWith_out (p : string) : startsWith "--out=" ("--out=" +:+ p) = true.
Proof. unfold startsWith. apply bool_decide_eq_true. now exists p. Qed.

Lemma startsWith_cut (v : string) :
  startsWith "--out=" v = true ->
  v = "--out=" +:+ sliceFrom (String.length "--out=") v.
Proof.
  unfold startsWith. intros Hs. apply bool_decide_eq_true in Hs.
  destruct Hs as [r Hr]. apply stripPrefix_Some in Hr. subst v. reflexivity.
Qed.

Lemma find_skips {A : Type} (f : A -> bool) (before rest : list A) :
  Forall (fun v => f v = false) before ->
  find f (before ++ rest)%list = find f rest.
Proof.
  induction 1 as [|v before Hv _ IH]; [reflexivity|].
  cbn [app find]. now rewrite Hv.
Qed.

Lemma outPathOf_nonEmpty (argv : list string) : outPathOf argv <> "".
Proof.
  unfold outPathOf.
  destruct (sliceFrom (String.length "--out=") <$> find (startsWith "--out=") argv)
    as [p|]; [|discriminate].
  destruct p; cbn; discriminate.
Qed.

(** X19.  The output path is taken from the first argument that starts
    with [--out=], whatever follows it on the command line; when that
    argument gives an empty path, or there is no such argument, the
    path is [rss.xml].  The path is never empty. *)
Theorem outPath_selection (before after : list string) (p : string) :
  Forall (fun v => startsWith "--out=" v = false) before ->
  outPathOf before = "rss.xml"
  /\ outPathOf (before ++ ("--out=" +:+ p) :: after)%list
     = (if nonEmpty p then p else "rss.xml")
  /\ (forall argv, outPathOf argv <> "").
Proof.
  intros Hb. split; [|split].
  - unfold outPathOf. rewrite <- (app_nil_r before), (find_skips _ _ _ Hb).
    reflexivity.
  - unfold outPathOf. rewrite (find_skips _ _ _ Hb). cbn [find].
    rewrite startsWith_out. reflexivity.
  - apply outPathOf_nonEmpty.
Qed.

Lemma outPath_selection_witness :
  outPathOf ["node"; "generate-rss.mjs"] = "rss.xml"
  /\ outPathOf (["node"; "generate-rss.mjs"]
                ++ ("--out=" +:+ "public/feed.xml") :: ["--out=other.xml"])%list
     = (if nonEmpty "public/feed.xml" then "public/feed.xml" else "rss.xml")
  /\ (forall argv, outPathOf argv <> "").
Proof.
  apply (outPath_selection ["node"; "generate-rss.mjs"] ["--out=other.xml"]
           "public/feed.xml").
  repeat constructor.
Defined.

Section MainProperties.
Context `{Host}.
Variable dirname : string -> string.
Variable resolve : string -> string -> string.
Variable scriptFile : string.
Variable mkdirFails : string -> option string.
Variable writeFails : string -> string -> option string.
Variables (env : gmap string string) (argv : list string).
Variables (random : nat -> Q) (network : nat -> FetchOutcome) (now : string).




End MainProperties.


(** X21.  When every request the ceiling allows fails, the run of the
    script reports the error of the last request, sets the exit code to
    1 and leaves the file system untouched, whatever the file system
    would have answered; it made exactly as many requests as the
    ceiling. *)
Theorem main_network_down `{Host}
    (dirname : string -> string) (resolve : string -> string -> string)
    (scriptFile : string) (mkdirFails : string -> option string)
    (writeFails : string -> string -> option string)
    (env : gmap string string) (argv : list string)
    (random : nat -> Q) (network : nat -> FetchOutcome) (now : string) :
  let m := Qfloor (effectiveAttempts (Some (retryMax (configOf env)))) in
  (forall i, (Z.of_nat i < m)%Z -> exists e, fetchHtml (network i) = Throw e) ->
  exists run e,
    main dirname resolve scriptFile mkdirFails writeFails env argv random network now
    = Some run
    /\ fetchHtml (network (Z.to_nat m - 1)) = Throw e
    /\ stderr run = [Raised e]
    /\ exitCode run = Some 1%Z
    /\ madeDirs run = [] /\ written run = [] /\ stdout run = []
    /\ Z.of_nat (invocations (effects run)) = m.
Proof.
  intros m Hfail.
  destruct (generateRss_exhausts (configOf env) random network now initialWorld
              eq_refl Hfail) as (e & w' & He & Hrun & Hinv).
  unfold main. rewrite Hrun. eexists. exists e. split; [reflexivity|]. cbn.
  repeat (split; [first [assumption | reflexivity]|]). assumption.
Qed.

Lemma main_network_down_witness :
  let dirname (p : string) := "/repo/scripts" in
  let resolve (a b : string) := a +:+ "/" +:+ b in
  let network (n : nat) := FetchResponse 503 "Service Unavailable" "" in
  exists run e,
    main (H := referenceHost) dirname resolve "/repo/scripts/generate-rss.mjs"
      (fun _ => None) (fun _ _ => None) ∅ ["node"; "generate-rss.mjs"]
      (fun _ => 0%Q) network sampleDate
    = Some run
    /\ fetchHtml (network (Z.to_nat (Qfloor (effectiveAttempts
                                               (Some (retryMax (configOf ∅))))) - 1))
       = Throw e
    /\ stderr run = [Raised e]
    /\ exitCode run = Some 1%Z
    /\ madeDirs run = [] /\ written run = [] /\ stdout run = []
    /\ Z.of_nat (invocations (effects run))
       = Qfloor (effectiveAttempts (Some (retryMax (configOf ∅)))).
Proof.
  intros dirname resolve network.
  apply (main_network_down (H := referenceHost) dirname resolve
           "/repo/scripts/generate-rss.mjs" (fun _ => None) (fun _ _ => None) ∅
           ["node"; "generate-rss.mjs"] (fun _ => 0%Q) network sampleDate).
  intros i _. eexists. reflexivity.
Defined.

(** A run on the sample page with the path given on the command line. *)
Example main_writes_sample_feed :
  let dirname (p : string) := "/repo/scripts" in
  let resolve (a b : string) := a +:+ "/" +:+ b in
  exists run rss,
    main (H := referenceHost) dirname resolve "/repo/scripts/generate-rss.mjs"
      (fun _ => None) (fun _ _ => None) ∅ ["node"; "generate-rss.mjs"; "--out=feed.xml"]
      (fun _ => 0%Q) (fun _ => FetchResponse 200 "OK" nuxtAssignment) sampleDate
    = Some run
    /\ written run = [("/repo/scripts/../feed.xml", rss)]
    /\ stdout run = ["Wrote feed.xml (" +:+ pretty (String.length rss) +:+ " bytes)"]
    /\ exitCode run = None.
Proof.
  intros dirname resolve. do 2 eexists.
  split; [vm_compute; reflexivity|]. repeat split.
Qed.
